(** * arduino-mqtt: buffer codec, string utility, timer and transport
      adapters, and the client session driver

    A shallow embedding of [src/lwmqtt/helpers.c], [src/lwmqtt/string.c] and
    [src/MQTTClient.cpp], with the properties of the design document proved
    (or refuted) over it.

    Conventions.  Machine integers are [Z] with the wrap-around of their C
    type written out ([u8], [u16], [u32], [to_size_t], [to_int32]).
    Pointers are addresses in [Z] ([NULL] is [0]); the byte memory they point
    into is a total map from addresses to bytes.  A C function that returns
    an error code and updates a cursor and an output slot through pointers
    becomes a function returning the three of them. *)

From Stdlib Require Import ZArith List Bool Lia String Ascii.
Import ListNotations.
Local Open Scope Z_scope.

(** ** Machine integers *)

Definition u8 (x : Z) : Z := x mod 2 ^ 8.
Definition u16 (x : Z) : Z := x mod 2 ^ 16.
Definition u32 (x : Z) : Z := x mod 2 ^ 32.

(** [size_t] on the 32-bit targets of the library (ESP8266, ESP32, ARM). *)
Definition to_size_t (x : Z) : Z := x mod 2 ^ 32.

(** Conversion of an unsigned 32-bit pattern to [int32_t]. *)
Definition to_int32 (x : Z) : Z :=
  let y := x mod 2 ^ 32 in
  if y <? 2 ^ 31 then y else y - 2 ^ 32.

(** ** Byte memory *)

Definition memory := Z -> Z.
Definition NULL : Z := 0.

Definition load (m : memory) (a : Z) : Z := u8 (m a).
Definition store (m : memory) (a v : Z) : memory :=
  fun x => if x =? a then u8 v else m x.

(** [memcpy(dst, src, len)] for regions that do not overlap. *)
Definition memcpy (m : memory) (dst src len : Z) : memory :=
  fun x => if (dst <=? x) && (x <? dst + len) then m (src + (x - dst)) else m x.

(** Memory holding the bytes [bs] from address [base] on, zero elsewhere. *)
Definition mem_of_list (base : Z) (bs : list Z) : memory :=
  fun x => if (base <=? x) then nth (Z.to_nat (x - base)) bs 0 else 0.

(** ** Error codes

    [lwmqtt.h] is not among the sources; these are the enumerators the
    sources use, and [LWMQTT_OTHER] stands for the remaining ones, which
    only the protocol engine produces. *)

Inductive lwmqtt_err_t : Type :=
| LWMQTT_SUCCESS
| LWMQTT_BUFFER_TOO_SHORT
| LWMQTT_VARNUM_OVERFLOW
| LWMQTT_NETWORK_FAILED_CONNECT
| LWMQTT_NETWORK_TIMEOUT
| LWMQTT_NETWORK_FAILED_READ
| LWMQTT_NETWORK_FAILED_WRITE
| LWMQTT_OTHER (code : Z).

Definition is_success (e : lwmqtt_err_t) : bool :=
  match e with LWMQTT_SUCCESS => true | _ => false end.

(** * helpers.c *)

(** What a codec call leaves behind: the returned code, the cursor [*buf]
    after the call, and the output (the slot written through the last
    pointer argument for a read, the memory for a write). *)
Record result (A : Type) : Type := mk_result {
  r_err : lwmqtt_err_t;
  r_buf : Z;
  r_out : A
}.
Arguments mk_result {A} _ _ _.
Arguments r_err {A} _.
Arguments r_buf {A} _.
Arguments r_out {A} _.

(** [data] is the value of the slot [*data] before the call. *)
Definition lwmqtt_read_data (buf buf_end data len : Z) : result Z :=
  if len =? 0 then mk_result LWMQTT_SUCCESS buf NULL
  else if to_size_t (buf_end - buf) <? len then mk_result LWMQTT_BUFFER_TOO_SHORT buf data
  else mk_result LWMQTT_SUCCESS (buf + len) buf.

Definition lwmqtt_write_data (m : memory) (buf buf_end data len : Z) : result memory :=
  if len =? 0 then mk_result LWMQTT_SUCCESS buf m
  else if to_size_t (buf_end - buf) <? len then mk_result LWMQTT_BUFFER_TOO_SHORT buf m
  else mk_result LWMQTT_SUCCESS (buf + len) (memcpy m buf data len).

Definition lwmqtt_read_num (m : memory) (buf buf_end : Z) : result Z :=
  if to_size_t (buf_end - buf) <? 2 then mk_result LWMQTT_BUFFER_TOO_SHORT buf 0
  else mk_result LWMQTT_SUCCESS (buf + 2)
         (u16 (Z.lor (Z.shiftl (load m buf) 8) (load m (buf + 1)))).

Definition lwmqtt_write_num (m : memory) (buf buf_end num : Z) : result memory :=
  if to_size_t (buf_end - buf) <? 2 then mk_result LWMQTT_BUFFER_TOO_SHORT buf m
  else mk_result LWMQTT_SUCCESS (buf + 2)
         (store (store m buf (u8 (Z.shiftr num 8))) (buf + 1) (u8 num)).

(** [lwmqtt_string_t]: a length and a pointer.  The pointer is an address
    ([P] is [Z]) where the codec only computes with it, and the characters
    found at the address where [string.c] reads through it. *)
Record lwmqtt_string_t (P : Type) : Type := mk_string { len : Z; data : P }.
Arguments mk_string {P} _ _.
Arguments len {P} _.
Arguments data {P} _.

Definition lwmqtt_read_string (m : memory) (buf buf_end : Z) (str : lwmqtt_string_t Z)
  : result (lwmqtt_string_t Z) :=
  let n := lwmqtt_read_num m buf buf_end in
  if negb (is_success (r_err n)) then mk_result (r_err n) (r_buf n) str
  else
    let d := lwmqtt_read_data (r_buf n) buf_end (data str) (r_out n) in
    if negb (is_success (r_err d)) then mk_result (r_err d) (r_buf d) str
    else mk_result LWMQTT_SUCCESS (r_buf d) (mk_string (r_out n) (r_out d)).

Definition lwmqtt_write_string (m : memory) (buf buf_end : Z) (str : lwmqtt_string_t Z)
  : result memory :=
  let n := lwmqtt_write_num m buf buf_end (len str) in
  if negb (is_success (r_err n)) then n
  else lwmqtt_write_data (r_out n) (r_buf n) buf_end (data str) (len str).

Definition lwmqtt_read_byte (m : memory) (buf buf_end : Z) : result Z :=
  if buf_end <=? buf then mk_result LWMQTT_BUFFER_TOO_SHORT buf 0
  else mk_result LWMQTT_SUCCESS (buf + 1) (load m buf).

Definition lwmqtt_write_byte (m : memory) (buf buf_end byte : Z) : result memory :=
  if buf_end <=? buf then mk_result LWMQTT_BUFFER_TOO_SHORT buf m
  else mk_result LWMQTT_SUCCESS (buf + 1) (store m buf byte).

(** Returns the code and the value left in [*len]. *)
Definition lwmqtt_varnum_length (varnum : Z) : lwmqtt_err_t * Z :=
  if varnum <? 128 then (LWMQTT_SUCCESS, 1)
  else if varnum <? 16384 then (LWMQTT_SUCCESS, 2)
  else if varnum <? 2097152 then (LWMQTT_SUCCESS, 3)
  else if varnum <? 268435456 then (LWMQTT_SUCCESS, 4)
  else (LWMQTT_VARNUM_OVERFLOW, 0).

(** The [do ... while (byte & 0x80)] loop of [lwmqtt_read_varnum]; one unit
    of [fuel] per iteration, [None] when it runs out. *)
Fixpoint read_varnum_loop (fuel : nat) (m : memory) (buf buf_end varnum shift : Z)
  : option (result Z) :=
  match fuel with
  | O => None
  | S fuel' =>
      if buf >=? buf_end then Some (mk_result LWMQTT_BUFFER_TOO_SHORT buf varnum)
      else if shift >=? 28 then Some (mk_result LWMQTT_VARNUM_OVERFLOW buf varnum)
      else
        let byte := load m buf in
        let buf1 := buf + 1 in
        let varnum1 := Z.lor varnum (u32 (Z.shiftl (Z.land byte 127) shift)) in
        let shift1 := u8 (shift + 7) in
        if Z.land byte 128 =? 0
        then Some (mk_result LWMQTT_SUCCESS buf1 varnum1)
        else read_varnum_loop fuel' m buf1 buf_end varnum1 shift1
  end.

(** The shift counter rises by 7 from 0 and the loop leaves at 28: five
    iterations at most. *)
Definition lwmqtt_read_varnum (m : memory) (buf buf_end : Z) : option (result Z) :=
  read_varnum_loop 5 m buf buf_end 0 0.

(** The [do ... while (varnum > 0)] loop of [lwmqtt_write_varnum]. *)
Fixpoint write_varnum_loop (fuel : nat) (m : memory) (buf buf_end varnum : Z)
  : option (result memory) :=
  match fuel with
  | O => None
  | S fuel' =>
      if buf >=? buf_end then Some (mk_result LWMQTT_BUFFER_TOO_SHORT buf m)
      else
        let byte := u8 (Z.land varnum 127) in
        let varnum1 := Z.shiftr varnum 7 in
        let byte1 := if varnum1 >? 0 then u8 (Z.lor byte 128) else byte in
        let m1 := store m buf byte1 in
        let buf1 := buf + 1 in
        if varnum1 >? 0
        then write_varnum_loop fuel' m1 buf1 buf_end varnum1
        else Some (mk_result LWMQTT_SUCCESS buf1 m1)
  end.

(** A [uint32_t] is exhausted by five shifts of 7 bits. *)
Definition lwmqtt_write_varnum (m : memory) (buf buf_end varnum : Z) : option (result memory) :=
  write_varnum_loop 5 m buf buf_end varnum.

(** Unrolls the five iterations of the read loop, with the values the
    shift counter takes. *)
Ltac unroll_read_varnum :=
  unfold lwmqtt_read_varnum; cbn [read_varnum_loop];
  change (u8 (0 + 7)) with 7; change (u8 (7 + 7)) with 14;
  change (u8 (14 + 7)) with 21; change (u8 (21 + 7)) with 28;
  change (0 >=? 28) with false; change (7 >=? 28) with false;
  change (14 >=? 28) with false; change (21 >=? 28) with false;
  change (28 >=? 28) with true; cbv iota.

(** * string.c *)

(** A [char *] that is read through: [None] is [NULL], [Some s] an address
    at which the characters of [s] are found.  Read as a C string it ends at
    the first NUL of [s], or at the NUL that follows [s] when there is
    none. *)
Definition char_ptr : Type := option string.

Definition byte_of (c : ascii) : Z := Z.of_N (N_of_ascii c).

(** [*p], the terminator when no character is left. *)
Definition deref (s : string) : Z :=
  match s with
  | EmptyString => 0
  | String c _ => byte_of c
  end.

Fixpoint strlen (s : string) : Z :=
  match s with
  | EmptyString => 0
  | String c s' => if byte_of c =? 0 then 0 else 1 + strlen s'
  end.

(** [memcmp(p, q, n)]: the difference of the first two bytes that differ,
    as unsigned bytes; [None] when it would read past the characters of [p]
    or [q]. *)
Fixpoint memcmp (p q : string) (n : nat) {struct n} : option Z :=
  match n with
  | O => Some 0
  | S n' =>
      match p, q with
      | String x p', String y q' =>
          if byte_of x =? byte_of y then memcmp p' q' n'
          else Some (byte_of x - byte_of y)
      | _, _ => None
      end
  end.

(** The byte at index [i], [0] past the end. *)
Definition byte_at (s : string) (i : nat) : Z :=
  match String.get i s with
  | Some c => byte_of c
  | None => 0
  end.

Definition lwmqtt_string (str : char_ptr) : lwmqtt_string_t char_ptr :=
  match str with
  | None => mk_string 0 None
  | Some s =>
      let len := u16 (strlen s) in
      if len =? 0 then mk_string 0 None else mk_string len (Some s)
  end.

Definition lwmqtt_strcmp (a : lwmqtt_string_t char_ptr) (b : char_ptr) : option Z :=
  match b with
  | None => Some (if len a =? 0 then 0 else 1)
  | Some s =>
      if deref s =? 0 then Some (if len a =? 0 then 0 else 1)
      else
        let b_len := strlen s in
        if negb (len a =? b_len) then Some (if len a <? b_len then -1 else 1)
        else
          match data a with
          | None => None
          | Some d => memcmp d s (Z.to_nat (len a))
          end
  end.

(** * MQTTClient.h: the session *)

(** [lwmqtt_will_t] and [lwmqtt_message_t] are declared in [lwmqtt.h]; these
    are the fields the driver uses. *)
Record lwmqtt_will_t : Type := mk_will {
  will_topic : lwmqtt_string_t char_ptr;
  will_payload : lwmqtt_string_t char_ptr;
  will_retained : bool;
  will_qos : Z
}.

Record lwmqtt_message_t (P : Type) : Type := mk_message {
  msg_qos : Z;
  msg_retained : bool;
  msg_payload : P;
  msg_payload_len : Z
}.
Arguments mk_message {P} _ _ _ _.
Arguments msg_qos {P} _.
Arguments msg_retained {P} _.
Arguments msg_payload {P} _.
Arguments msg_payload_len {P} _.

(** The data members of [class MQTTClient].  [netClient] records whether
    the pointer is set; the transport it points to, and with it the members
    the protocol engine works on ([client], [network], the timers), belong to
    the world the operations act on.  The member [callback], which points
    back to the session, is [MQTTClientCallback] below. *)
Record MQTTClient : Type := mk_client {
  readBuf : Z;
  writeBuf : Z;
  netClient : bool;
  hostname : char_ptr;
  will : option lwmqtt_will_t;
  readBufSize : Z;
  writeBufSize : Z;
  timeout : Z;
  _droppedMessages : Z;
  port : Z;
  keepAlive : Z;
  nextDupPacketID : Z;
  cleanSession : bool;
  _sessionPresent : bool;
  _connected : bool;
  _returnCode : Z;
  _lastError : lwmqtt_err_t
}.

Definition set_will (c : MQTTClient) (w : option lwmqtt_will_t) : MQTTClient :=
  mk_client (readBuf c) (writeBuf c) (netClient c) (hostname c) w
    (readBufSize c) (writeBufSize c) (timeout c) (_droppedMessages c) (port c)
    (keepAlive c) (nextDupPacketID c) (cleanSession c) (_sessionPresent c)
    (_connected c) (_returnCode c) (_lastError c).

Definition set_nextDupPacketID (c : MQTTClient) (id : Z) : MQTTClient :=
  mk_client (readBuf c) (writeBuf c) (netClient c) (hostname c) (will c)
    (readBufSize c) (writeBufSize c) (timeout c) (_droppedMessages c) (port c)
    (keepAlive c) id (cleanSession c) (_sessionPresent c)
    (_connected c) (_returnCode c) (_lastError c).

Definition set_connected (c : MQTTClient) (b : bool) : MQTTClient :=
  mk_client (readBuf c) (writeBuf c) (netClient c) (hostname c) (will c)
    (readBufSize c) (writeBufSize c) (timeout c) (_droppedMessages c) (port c)
    (keepAlive c) (nextDupPacketID c) (cleanSession c) (_sessionPresent c)
    b (_returnCode c) (_lastError c).

Definition set_lastError (c : MQTTClient) (e : lwmqtt_err_t) : MQTTClient :=
  mk_client (readBuf c) (writeBuf c) (netClient c) (hostname c) (will c)
    (readBufSize c) (writeBufSize c) (timeout c) (_droppedMessages c) (port c)
    (keepAlive c) (nextDupPacketID c) (cleanSession c) (_sessionPresent c)
    (_connected c) (_returnCode c) e.

Definition readBufferPtr (c : MQTTClient) : Z := readBuf c.
Definition readBufferSize (c : MQTTClient) : Z := readBufSize c.

Inductive MQTTCallbackType : Type :=
| MQTT_CB_NONE
| MQTT_CB_SIMPLE
| MQTT_CB_ADVANCED
| MQTT_CB_RAW
| MQTT_CB_FUNC_SIMPLE
| MQTT_CB_FUNC_ADVANCED
| MQTT_CB_FUNC_RAW.

(** [struct MQTTClientCallback]: the session pointer ([None] is [nullptr])
    and the tag of the union; the function stored in the union is code of the
    application. *)
Record MQTTClientCallback : Type := mk_callback {
  cb_client : option MQTTClient;
  cb_type : MQTTCallbackType
}.

(** * MQTTClient.cpp: timers *)

(** The tick source of the platform, [millis()], read in a state of the
    world [W]. *)
Class Clock (W : Type) : Type := { millis : W -> Z }.

(** [MQTTClientClockSource]: a clock of the application. *)
Definition MQTTClientClockSource (W : Type) : Type := W -> Z.

Record lwmqtt_arduino_timer_t (W : Type) : Type := mk_timer {
  timer_start : Z;
  timer_timeout : Z;
  timer_millis : option (MQTTClientClockSource W)
}.
Arguments mk_timer {W} _ _ _.
Arguments timer_start {W} _.
Arguments timer_timeout {W} _.
Arguments timer_millis {W} _.

(** [(t->millis != nullptr) ? t->millis() : millis()], as a [uint32_t]. *)
Definition timer_now {W : Type} `{Clock W} (t : lwmqtt_arduino_timer_t W) (w : W) : Z :=
  u32 (match timer_millis t with
       | Some source => source w
       | None => millis w
       end).

Definition lwmqtt_arduino_timer_set {W : Type} `{Clock W}
  (t : lwmqtt_arduino_timer_t W) (timeout : Z) (w : W) : lwmqtt_arduino_timer_t W :=
  mk_timer (timer_now t w) timeout (timer_millis t).

Definition lwmqtt_arduino_timer_get {W : Type} `{Clock W}
  (t : lwmqtt_arduino_timer_t W) (w : W) : Z :=
  let now := timer_now t w in
  let elapsed := u32 (now - timer_start t) in
  to_int32 (u32 (timer_timeout t - elapsed)).

(** A world that is its tick counter. *)
Definition tick_clock : Clock Z := {| millis := fun w => w |}.

(** * MQTTClient.cpp: the transport read *)

(** What one turn of the polling loop observes: [millis()] at its top, the
    result of [client->read(buffer, len)] if the deadline has not passed, and
    the result of [client->connected()] if nothing was read. *)
Record poll : Type := mk_poll {
  poll_millis : Z;
  poll_read : Z;
  poll_connected : Z
}.

(** The call has returned a code and [*read], or is still polling when the
    observations end. *)
Inductive read_outcome : Type :=
| Returned (err : lwmqtt_err_t) (read : Z)
| Polling (len read : Z).

(** The [while (len > 0)] loop with the [return] after it, over the
    observations to come.  The bytes stored in [buffer] play no part in the
    control flow and are left out. *)
Fixpoint network_read_loop (start timeout len read : Z) (polls : list poll)
  : read_outcome :=
  if len >? 0 then
    match polls with
    | [] => Polling len read
    | p :: rest =>
        if u32 (poll_millis p - start) >=? timeout
        then Returned (if read =? 0 then LWMQTT_NETWORK_TIMEOUT else LWMQTT_SUCCESS) read
        else
          let r := poll_read p in
          if r >? 0
          then network_read_loop start timeout (to_size_t (len - r)) (to_size_t (read + r)) rest
          else if poll_connected p =? 0
               then Returned LWMQTT_NETWORK_FAILED_READ read
               else network_read_loop start timeout len read rest
    end
  else Returned (if read =? 0 then LWMQTT_NETWORK_TIMEOUT else LWMQTT_SUCCESS) read.

(** [start] is [millis()] at entry. *)
Definition lwmqtt_arduino_network_read (start len timeout : Z) (polls : list poll)
  : read_outcome :=
  network_read_loop start timeout len 0 polls.

(** A turn before the deadline. *)
Definition in_time (start timeout : Z) (p : poll) : Prop :=
  u32 (poll_millis p - start) < timeout.

(** A turn that does not end the call: before the deadline, and when it
    reads nothing the stream still reports a connection. *)
Definition quiet (start timeout : Z) (p : poll) : Prop :=
  in_time start timeout p /\ (poll_read p <= 0 -> poll_connected p <> 0).

(** The bytes the turns deliver. *)
Fixpoint delivered (polls : list poll) : Z :=
  match polls with
  | [] => 0
  | p :: rest => (if poll_read p >? 0 then poll_read p else 0) + delivered rest
  end.

(** The stream keeps the contract of [read(buffer, len)]: no turn delivers
    more than what is still asked for. *)
Fixpoint honest (len : Z) (polls : list poll) : Prop :=
  match polls with
  | [] => True
  | p :: rest =>
      poll_read p <= len /\
      honest (if poll_read p >? 0 then len - poll_read p else len) rest
  end.

(** * MQTTClient.cpp: message dispatch *)

(** What the handler hands to the function of the application. *)
Inductive callback_args : Type :=
| args_raw (client : option MQTTClient) (topic topic_len payload payload_len : Z)
| args_advanced (client : option MQTTClient) (topic bytes length : Z)
| args_simple (topic payload : list Z).

(** [String(p, n)] of the Arduino core: the [n] bytes at [p], nothing for a
    null [p]. *)
Definition arduino_String (m : memory) (p n : Z) : list Z :=
  if p =? NULL then []
  else map (fun i => load m (p + Z.of_nat i)) (seq 0 (Z.to_nat n)).

(** The lambda [can_terminate] with the variables it captures. *)
Definition can_terminate (buf_base buf_end ptr len : Z) : bool :=
  if buf_base =? NULL then false
  else (ptr >=? buf_base) && (ptr + len <? buf_end).

(** The handler on memory [m]: the memory it leaves, and the member of the
    union it calls with the arguments ([None] when it calls nothing). *)
Definition MQTTClientHandler (m : memory) (cb : MQTTClientCallback)
  (topic : lwmqtt_string_t Z) (message : lwmqtt_message_t Z)
  : memory * option (MQTTCallbackType * callback_args) :=
  match cb_type cb with
  | MQTT_CB_NONE => (m, None)
  | MQTT_CB_RAW | MQTT_CB_FUNC_RAW =>
      (m, Some (cb_type cb,
                args_raw (cb_client cb) (data topic) (len topic)
                  (msg_payload message) (msg_payload_len message)))
  | _ =>
      let buf_base :=
        match cb_client cb with Some c => readBufferPtr c | None => NULL end in
      let buf_cap :=
        match cb_client cb with Some c => to_size_t (readBufferSize c + 1) | None => 0 end in
      let buf_end := if buf_base =? NULL then NULL else buf_base + buf_cap in
      let m1 :=
        if can_terminate buf_base buf_end (data topic) (len topic)
        then store m (data topic + len topic) 0
        else m in
      let m2 :=
        if negb (msg_payload message =? NULL)
           && can_terminate buf_base buf_end (msg_payload message) (msg_payload_len message)
        then store m1 (msg_payload message + msg_payload_len message) 0
        else m1 in
      match cb_type cb with
      | MQTT_CB_ADVANCED | MQTT_CB_FUNC_ADVANCED =>
          (m2, Some (cb_type cb,
                     args_advanced (cb_client cb) (data topic) (msg_payload message)
                       (to_int32 (msg_payload_len message))))
      | MQTT_CB_SIMPLE | MQTT_CB_FUNC_SIMPLE =>
          (m2, Some (cb_type cb,
                     args_simple
                       (arduino_String m2 (data topic) (len topic))
                       (if negb (msg_payload message =? NULL)
                        then arduino_String m2 (msg_payload message) (msg_payload_len message)
                        else [])))
      | _ => (m2, None)
      end
  end.

(** The view [ptr, ptr + len) passes the containment check against the read
    buffer of the session the callback points to. *)
Definition in_read_buffer (cb : MQTTClientCallback) (ptr len : Z) : Prop :=
  exists c, cb_client cb = Some c /\
    readBuf c <> NULL /\
    readBuf c <= ptr /\
    ptr + len < readBuf c + to_size_t (readBufSize c + 1).

Definition null_terminating (t : MQTTCallbackType) : Prop :=
  t = MQTT_CB_SIMPLE \/ t = MQTT_CB_ADVANCED \/
  t = MQTT_CB_FUNC_SIMPLE \/ t = MQTT_CB_FUNC_ADVANCED.

(** * MQTTClient.cpp: the session driver *)

(** The transport, [class Client] of the Arduino core, acting on a world
    [W]: each call returns its result and the world it leaves. *)
Class Client (W : Type) : Type := {
  client_connected : W -> Z * W;
  client_available : W -> Z * W;
  client_stop : W -> W
}.

(** The protocol engine ([lwmqtt/client.c], not among the sources), acting
    on the same world through the session's [client] member.  [lwmqtt_publish]
    receives what [options.dup_id] points to ([None] for a null pointer) and
    returns what it leaves there. *)
Class Engine (W : Type) : Type := {
  lwmqtt_publish :
    option Z -> lwmqtt_string_t char_ptr -> lwmqtt_message_t char_ptr -> Z -> W ->
    lwmqtt_err_t * Z * W;
  lwmqtt_subscribe_one : lwmqtt_string_t char_ptr -> Z -> Z -> W -> lwmqtt_err_t * W;
  lwmqtt_unsubscribe_one : lwmqtt_string_t char_ptr -> Z -> W -> lwmqtt_err_t * W;
  lwmqtt_yield : Z -> Z -> W -> lwmqtt_err_t * W;
  lwmqtt_keep_alive : Z -> W -> lwmqtt_err_t * W;
  lwmqtt_disconnect : Z -> W -> lwmqtt_err_t * W
}.

(** [MQTTClient::connected]: [&&] evaluates the transport only when the flag
    is set and the pointer is not null. *)
Definition connected {W : Type} `{Client W} (c : MQTTClient) (w : W) : bool * W :=
  if negb (_connected c) then (false, w)
  else if negb (netClient c) then (false, w)
  else let (r, w1) := client_connected w in (r =? 1, w1).

Definition close {W : Type} `{Client W} (c : MQTTClient) (w : W) : MQTTClient * W :=
  (set_connected c false, client_stop w).

(** Each operation returns its [bool], the session and the world. *)
Definition publish {W : Type} `{Client W} `{Engine W}
  (topic payload : char_ptr) (length : Z) (retained : bool) (qos : Z)
  (c : MQTTClient) (w : W) : bool * MQTTClient * W :=
  let (up, w0) := connected c w in
  if negb up then (false, c, w0)
  else
    let message := mk_message qos retained payload (to_size_t length) in
    let staged := nextDupPacketID c >? 0 in
    let c1 := if staged then set_nextDupPacketID c 0 else c in
    let dup_id := if staged then Some (nextDupPacketID c1) else None in
    let '(err, dup, w1) := lwmqtt_publish dup_id (lwmqtt_string topic) message (timeout c1) w0 in
    let c2 := if staged then set_nextDupPacketID c1 dup else c1 in
    let c3 := set_lastError c2 err in
    if negb (is_success err)
    then let (c4, w2) := close c3 w1 in (false, c4, w2)
    else (true, c3, w1).

Definition subscribe {W : Type} `{Client W} `{Engine W}
  (topic : char_ptr) (qos : Z) (c : MQTTClient) (w : W) : bool * MQTTClient * W :=
  let (up, w0) := connected c w in
  if negb up then (false, c, w0)
  else
    let (err, w1) := lwmqtt_subscribe_one (lwmqtt_string topic) qos (timeout c) w0 in
    let c1 := set_lastError c err in
    if negb (is_success err)
    then let (c2, w2) := close c1 w1 in (false, c2, w2)
    else (true, c1, w1).

Definition unsubscribe {W : Type} `{Client W} `{Engine W}
  (topic : char_ptr) (c : MQTTClient) (w : W) : bool * MQTTClient * W :=
  let (up, w0) := connected c w in
  if negb up then (false, c, w0)
  else
    let (err, w1) := lwmqtt_unsubscribe_one (lwmqtt_string topic) (timeout c) w0 in
    let c1 := set_lastError c err in
    if negb (is_success err)
    then let (c2, w2) := close c1 w1 in (false, c2, w2)
    else (true, c1, w1).

Definition loop {W : Type} `{Client W} `{Engine W}
  (c : MQTTClient) (w : W) : bool * MQTTClient * W :=
  let (up, w0) := connected c w in
  if negb up then (false, c, w0)
  else
    let (available, w1) := client_available w0 in
    let '(yielded, c1, w2) :=
      if available >? 0
      then let (err, w2) := lwmqtt_yield available (timeout c) w1 in
           (is_success err, set_lastError c err, w2)
      else (true, c, w1) in
    if negb yielded
    then let (c2, w3) := close c1 w2 in (false, c2, w3)
    else
      let (err, w3) := lwmqtt_keep_alive (timeout c1) w2 in
      let c2 := set_lastError c1 err in
      if negb (is_success err)
      then let (c3, w4) := close c2 w3 in (false, c3, w4)
      else (true, c2, w3).

Definition disconnect {W : Type} `{Client W} `{Engine W}
  (c : MQTTClient) (w : W) : bool * MQTTClient * W :=
  let (up, w0) := connected c w in
  if negb up then (false, c, w0)
  else
    let (err, w1) := lwmqtt_disconnect (timeout c) w0 in
    let c1 := set_lastError c err in
    let (c2, w2) := close c1 w1 in
    (is_success err, c2, w2).

(** ** The will *)

(** What [setWill] and [clearWill] do on the heap, in order. *)
Inductive heap_event : Type :=
| heap_malloc_will
| heap_strdup (copy : string)
| heap_free_string (p : char_ptr)
| heap_free_will.

(** Whether the allocations of one [setWill] succeed. *)
Record allocator : Type := mk_allocator {
  malloc_will_ok : bool;
  strdup_topic_ok : bool;
  strdup_payload_ok : bool
}.

(** [strdup(s)]: the characters of the C string [s]. *)
Definition strdup (s : string) : string := substring 0 (Z.to_nat (strlen s)) s.

Definition clearWill (c : MQTTClient) : MQTTClient * list heap_event :=
  match will c with
  | None => (c, [])
  | Some w =>
      (set_will c None,
       (if len (will_payload w) >? 0 then [heap_free_string (data (will_payload w))] else [])
       ++ (if len (will_topic w) >? 0 then [heap_free_string (data (will_topic w))] else [])
       ++ [heap_free_will])
  end.

Definition setWill (a : allocator) (topic payload : char_ptr) (retained : bool) (qos : Z)
  (c : MQTTClient) : MQTTClient * list heap_event :=
  match topic with
  | None => (c, [])
  | Some t =>
      if deref t =? 0 then (c, [])
      else
        let (c1, ev1) := clearWill c in
        if negb (malloc_will_ok a) then (set_will c1 None, ev1)
        else
          let w0 := mk_will (mk_string 0 None) (mk_string 0 None) false 0 in
          let ev2 := ev1 ++ [heap_malloc_will] in
          if negb (strdup_topic_ok a)
          then let (c2, ev3) := clearWill (set_will c1 (Some w0)) in (c2, ev2 ++ ev3)
          else
            let w1 := mk_will (lwmqtt_string (Some (strdup t))) (will_payload w0)
                        (will_retained w0) (will_qos w0) in
            let ev3 := ev2 ++ [heap_strdup (strdup t)] in
            let wanted :=
              match payload with
              | None => None
              | Some p => if deref p =? 0 then None else Some p
              end in
            match wanted with
            | None =>
                (set_will c1 (Some (mk_will (will_topic w1) (will_payload w1) retained qos)),
                 ev3)
            | Some p =>
                if negb (strdup_payload_ok a)
                then let (c2, ev4) := clearWill (set_will c1 (Some w1)) in (c2, ev3 ++ ev4)
                else
                  (set_will c1
                     (Some (mk_will (will_topic w1) (lwmqtt_string (Some (strdup p)))
                              retained qos)),
                   ev3 ++ [heap_strdup (strdup p)])
            end
  end.

(** ** A transport that keeps a log, for running the driver *)

Inductive client_call : Type :=
| called_connected
| called_available
| called_stop
| called_engine.

(** The answer [connected()] gives, and the calls made so far. *)
Record logged : Type := mk_logged {
  answer_connected : Z;
  calls : list client_call
}.

Definition logged_client : Client logged := {|
  client_connected := fun w =>
    (answer_connected w, mk_logged (answer_connected w) (calls w ++ [called_connected]));
  client_available := fun w =>
    (0, mk_logged (answer_connected w) (calls w ++ [called_available]));
  client_stop := fun w => mk_logged (answer_connected w) (calls w ++ [called_stop])
|}.

Definition logged_engine : Engine logged := {|
  lwmqtt_publish := fun _ _ _ _ w =>
    (LWMQTT_SUCCESS, 1, mk_logged (answer_connected w) (calls w ++ [called_engine]));
  lwmqtt_subscribe_one := fun _ _ _ w =>
    (LWMQTT_SUCCESS, mk_logged (answer_connected w) (calls w ++ [called_engine]));
  lwmqtt_unsubscribe_one := fun _ _ w =>
    (LWMQTT_SUCCESS, mk_logged (answer_connected w) (calls w ++ [called_engine]));
  lwmqtt_yield := fun _ _ w =>
    (LWMQTT_SUCCESS, mk_logged (answer_connected w) (calls w ++ [called_engine]));
  lwmqtt_keep_alive := fun _ w =>
    (LWMQTT_SUCCESS, mk_logged (answer_connected w) (calls w ++ [called_engine]));
  lwmqtt_disconnect := fun _ w =>
    (LWMQTT_SUCCESS, mk_logged (answer_connected w) (calls w ++ [called_engine]))
|}.

(** * helpers.c: bit fields *)

Definition lwmqtt_read_bits (byte pos num : Z) : Z :=
  u8 (Z.land (Z.shiftr byte pos) (u32 (u32 (Z.shiftl 1 num) - 1))).

(** Returns the value left in [*byte]. *)
Definition lwmqtt_write_bits (byte value pos num : Z) : Z :=
  let mask := u8 (u32 (Z.shiftl (u32 (u32 (Z.shiftl 1 num) - 1)) pos)) in
  u8 (Z.lor (Z.land byte (Z.lnot mask)) (Z.land (Z.shiftl value pos) mask)).

(** Two memories hold the same bytes from [lo] up to [hi]. *)
Definition agree (m m' : memory) (lo hi : Z) : Prop :=
  forall a, lo <= a < hi -> load m a = load m' a.

(** The number that [k] groups stand for, seven bits each, the least
    significant group first at address [a]. *)
Fixpoint groups_value (m : memory) (a : Z) (k : nat) : Z :=
  match k with
  | O => 0
  | S k' => Z.land (load m a) 127 + 128 * groups_value m (a + 1) k'
  end.

(** The characters of the C string at [p], none for a null pointer. *)
Definition c_str (p : char_ptr) : string :=
  match p with
  | None => EmptyString
  | Some s => strdup s
  end.

(** What an operation of the driver that got past the guard on session [c]
    leaves: on [true] the session still connected with success as its last
    error; on [false] the failure recorded, the flag clear and the transport
    stopped last.  The will is untouched either way. *)
Definition closes_on_failure {W : Type} `{Client W} (c : MQTTClient)
  (out : bool * MQTTClient * W) : Prop :=
  let '(ok, c', w') := out in
  will c' = will c /\
  if ok
  then _lastError c' = LWMQTT_SUCCESS /\ _connected c' = true
  else _lastError c' <> LWMQTT_SUCCESS /\ _connected c' = false /\
       exists w1, w' = client_stop w1.

(** An engine whose every call times out. *)
Definition failing_engine : Engine logged := {|
  lwmqtt_publish := fun _ _ _ _ w =>
    (LWMQTT_NETWORK_TIMEOUT, 0, mk_logged (answer_connected w) (calls w ++ [called_engine]));
  lwmqtt_subscribe_one := fun _ _ _ w => (LWMQTT_NETWORK_TIMEOUT, w);
  lwmqtt_unsubscribe_one := fun _ _ w => (LWMQTT_NETWORK_TIMEOUT, w);
  lwmqtt_yield := fun _ _ w => (LWMQTT_NETWORK_TIMEOUT, w);
  lwmqtt_keep_alive := fun _ w => (LWMQTT_NETWORK_TIMEOUT, w);
  lwmqtt_disconnect := fun _ w => (LWMQTT_NETWORK_TIMEOUT, w)
|}.

(** ** The heap of the will *)

(** What the session may hold on the heap for its will. *)
Inductive heap_block : Type :=
| block_will
| block_string (p : char_ptr).

Definition heap_block_eqb (x y : heap_block) : bool :=
  match x, y with
  | block_will, block_will => true
  | block_string None, block_string None => true
  | block_string (Some s), block_string (Some t) => String.eqb s t
  | _, _ => false
  end.

(** Releases the first block equal to [b]; [None] when there is none. *)
Fixpoint release (b : heap_block) (live : list heap_block) : option (list heap_block) :=
  match live with
  | [] => None
  | x :: rest =>
      if heap_block_eqb b x then Some rest
      else option_map (cons x) (release b rest)
  end.

(** One heap event on the live blocks; [free(NULL)] does nothing, and a
    release of a block that is not live is an error ([None]). *)
Definition heap_step (live : list heap_block) (e : heap_event) : option (list heap_block) :=
  match e with
  | heap_malloc_will => Some (block_will :: live)
  | heap_strdup copy => Some (block_string (Some copy) :: live)
  | heap_free_string None => Some live
  | heap_free_string (Some s) => release (block_string (Some s)) live
  | heap_free_will => release block_will live
  end.

Fixpoint heap_run (live : list heap_block) (events : list heap_event)
  : option (list heap_block) :=
  match events with
  | [] => Some live
  | e :: rest =>
      match heap_step live e with
      | Some live' => heap_run live' rest
      | None => None
      end
  end.

(** The blocks a session owns through its will: the copies of the payload
    and the topic when they are not empty, and the record. *)
Definition owned (c : MQTTClient) : list heap_block :=
  match will c with
  | None => []
  | Some w =>
      (if len (will_payload w) >? 0 then [block_string (data (will_payload w))] else [])
      ++ (if len (will_topic w) >? 0 then [block_string (data (will_topic w))] else [])
      ++ [block_will]
  end.

(** A will whose strings that are not empty point to a copy. *)
Definition will_wellformed (c : MQTTClient) : Prop :=
  match will c with
  | None => True
  | Some w =>
      (0 < len (will_payload w) -> data (will_payload w) <> None) /\
      (0 < len (will_topic w) -> data (will_topic w) <> None)
  end.

(** * MQTTClient.cpp: construction *)

(** The calls of [begin] that register the buffers, the timers, the network
    and the handler with the protocol engine. *)
Class Setup (W : Type) : Type := {
  lwmqtt_init : Z -> Z -> Z -> Z -> W -> W;
  lwmqtt_set_timers : W -> W;
  lwmqtt_set_network : W -> W;
  lwmqtt_set_callback : W -> W
}.

Definition set_netClient (c : MQTTClient) (b : bool) : MQTTClient :=
  mk_client (readBuf c) (writeBuf c) b (hostname c) (will c)
    (readBufSize c) (writeBufSize c) (timeout c) (_droppedMessages c) (port c)
    (keepAlive c) (nextDupPacketID c) (cleanSession c) (_sessionPresent c)
    (_connected c) (_returnCode c) (_lastError c).

(** [MQTTClient::MQTTClient(int readBufSize, int writeBufSize)], with the
    default member initializers of the class.  [read_block] and
    [write_block] are what [malloc(readBufSize + 1)] and
    [malloc(writeBufSize)] return, [NULL] when they fail.  The enumerator
    [0] that [_lastError] starts with is [LWMQTT_SUCCESS]. *)
Definition MQTTClient_new (readBufSize writeBufSize read_block write_block : Z)
  : MQTTClient * MQTTClientCallback :=
  let failed := (read_block =? NULL) || (write_block =? NULL) in
  (mk_client
     (if failed then NULL else read_block)
     (if failed then NULL else write_block)
     false None None
     (if failed then 0 else to_size_t readBufSize)
     (if failed then 0 else to_size_t writeBufSize)
     1000 0 0 10 0 true false false 0 LWMQTT_SUCCESS,
   mk_callback None MQTT_CB_NONE).

(** [MQTTClient::begin(Client &)]. *)
Definition begin {W : Type} `{Setup W} (c : MQTTClient) (w : W) : MQTTClient * W :=
  if (readBuf c =? NULL) || (writeBuf c =? NULL)
  then (set_lastError c LWMQTT_BUFFER_TOO_SHORT, w)
  else
    (set_netClient c true,
     lwmqtt_set_callback
       (lwmqtt_set_network
          (lwmqtt_set_timers
             (lwmqtt_init (writeBuf c) (writeBufSize c) (readBuf c) (readBufSize c) w)))).

(** [onMessage], [onMessageAdvanced] and [onMessageRaw] with a plain
    function or a [std::function]: the callback points to the session and
    carries the tag.  (The closure of an earlier [std::function] callback,
    which [destroyCallback] releases first, is no part of the record.) *)
Definition onMessage_as (kind : MQTTCallbackType) (c : MQTTClient) : MQTTClientCallback :=
  mk_callback (Some c) kind.

Definition logged_setup : Setup logged := {|
  lwmqtt_init := fun _ _ _ _ w => mk_logged (answer_connected w) (calls w ++ [called_engine]);
  lwmqtt_set_timers := fun w => w;
  lwmqtt_set_network := fun w => w;
  lwmqtt_set_callback := fun w => w
|}.

(** * MQTTClient.cpp: connect *)

(** [lwmqtt_connect_options_t], declared in [lwmqtt.h]: the fields [connect]
    sets or leaves at their defaults. *)
Record lwmqtt_connect_options_t : Type := mk_connect_options {
  opt_client_id : lwmqtt_string_t char_ptr;
  opt_keep_alive : Z;
  opt_clean_session : bool;
  opt_username : lwmqtt_string_t char_ptr;
  opt_password : lwmqtt_string_t char_ptr
}.

(** What [connect] asks of the world beyond [Client]: the assignment to
    [network.client], the two [Client::connect] overloads, and the connect
    sequence of the protocol engine, which returns its code together with the
    [return_code] and [session_present] it leaves in the options. *)
Class Connector (W : Type) : Type := {
  network_set_client : W -> W;
  client_connect_hostname : string -> Z -> W -> Z * W;
  client_connect_address : Z -> Z -> W -> Z * W;
  lwmqtt_connect :
    lwmqtt_connect_options_t -> option lwmqtt_will_t -> Z -> W ->
    lwmqtt_err_t * Z * bool * W
}.

Definition set_returnCode (c : MQTTClient) (code : Z) : MQTTClient :=
  mk_client (readBuf c) (writeBuf c) (netClient c) (hostname c) (will c)
    (readBufSize c) (writeBufSize c) (timeout c) (_droppedMessages c) (port c)
    (keepAlive c) (nextDupPacketID c) (cleanSession c) (_sessionPresent c)
    (_connected c) code (_lastError c).

Definition set_sessionPresent (c : MQTTClient) (b : bool) : MQTTClient :=
  mk_client (readBuf c) (writeBuf c) (netClient c) (hostname c) (will c)
    (readBufSize c) (writeBufSize c) (timeout c) (_droppedMessages c) (port c)
    (keepAlive c) (nextDupPacketID c) (cleanSession c) b
    (_connected c) (_returnCode c) (_lastError c).

(** The second half of [connect], from "prepare options" on. *)
Definition connect_broker {W : Type} `{Client W} `{Connector W}
  (defaults : lwmqtt_connect_options_t) (clientID username password : char_ptr)
  (c : MQTTClient) (w : W) : option (bool * MQTTClient * W) :=
  let options :=
    mk_connect_options
      (lwmqtt_string clientID) (keepAlive c) (cleanSession c)
      (match username with
       | Some _ => lwmqtt_string username
       | None => opt_username defaults
       end)
      (match password with
       | Some _ => lwmqtt_string password
       | None => opt_password defaults
       end) in
  let '(err, code, present, w1) := lwmqtt_connect options (will c) (timeout c) w in
  let c1 := set_returnCode (set_lastError c err) code in
  if negb (is_success err)
  then if netClient c1
       then let (c2, w2) := close c1 w1 in Some (false, c2, w2)
       else None
  else Some (true, set_connected (set_sessionPresent c1 present) true, w1).

(** [MQTTClient::connect].  [defaults] is [lwmqtt_default_connect_options]
    and [address] the member of that name, which the session record leaves
    out; [None] is a call through the null [netClient]. *)
Definition connect {W : Type} `{Client W} `{Connector W}
  (defaults : lwmqtt_connect_options_t) (address : Z)
  (clientID username password : char_ptr) (skip : bool)
  (c : MQTTClient) (w : W) : option (bool * MQTTClient * W) :=
  let '(c0, w0) :=
    if negb skip
    then let (up, w1) := connected c w in
         if up then close c w1 else (c, w1)
    else (c, w) in
  let w1 := network_set_client w0 in
  if negb skip
  then
    if netClient c0
    then
      let (ret, w2) :=
        match hostname c0 with
        | Some name => client_connect_hostname name (u16 (port c0)) w1
        | None => client_connect_address address (u16 (port c0)) w1
        end in
      if ret <=? 0
      then Some (false, set_lastError c0 LWMQTT_NETWORK_FAILED_CONNECT, w2)
      else connect_broker defaults clientID username password c0 w2
    else None
  else connect_broker defaults clientID username password c0 w1.

(** A transport that cannot be opened, on the logging world. *)
Definition logged_connector : Connector logged := {|
  network_set_client := fun w => w;
  client_connect_hostname := fun _ _ w => (0, w);
  client_connect_address := fun _ _ w => (0, w);
  lwmqtt_connect := fun _ _ _ w =>
    (LWMQTT_SUCCESS, 0, false, mk_logged (answer_connected w) (calls w ++ [called_engine]))
|}.

(** * Proof automation *)

(** Case analysis on the comparisons of a goal about bits. *)
Ltac bit_cases :=
  repeat match goal with
  | |- context [?a <? ?b] => destruct (Z.ltb_spec a b)
  | |- context [?a <=? ?b] => destruct (Z.leb_spec a b)
  end; cbn [andb orb negb]; try lia.

(** Closes the case of a successful decode of a given number of groups. *)
Ltac varnum_groups :=
  cbn [groups_value Z.of_nat Pos.of_succ_nat Pos.succ];
  change (128 ^ 1) with 128; change (128 ^ 2) with 16384;
  change (128 ^ 3) with 2097152; change (128 ^ 4) with 268435456;
  repeat split; try lia;
  try (intros i Hi;
       assert (Hc : i = 0 \/ i = 1 \/ i = 2) by lia;
       destruct Hc as [-> | [-> | ->]]; try lia;
       match goal with
       | H : Z.land (load ?m ?b) 128 <> 0 |- Z.land (load ?m ?a) 128 <> 0 =>
           replace a with b by lia; exact H
       end);
  try match goal with
      | H : Z.land (load ?m ?b) 128 = 0 |- Z.land (load ?m ?a) 128 = 0 =>
          replace a with b by lia; exact H
      end.
(** * Properties of the buffer codec *)

(** ** The loops return *)

Lemma read_varnum_total m buf buf_end :
  exists r, lwmqtt_read_varnum m buf buf_end = Some r.
Proof.
  unroll_read_varnum.
  repeat match goal with
  | |- context [if ?c then _ else _] => destruct c eqn:?; eauto
  end.
Qed.

Lemma write_varnum_total m buf buf_end varnum :
  0 <= varnum < 2 ^ 32 ->
  exists r, lwmqtt_write_varnum m buf buf_end varnum = Some r.
Proof.
  intros Hv. unfold lwmqtt_write_varnum. cbn [write_varnum_loop].
  rewrite !Z.shiftr_div_pow2 by lia. change (2 ^ 7) with 128.
  assert (Hlast : (varnum / 128 / 128 / 128 / 128 / 128 >? 0) = false).
  { destruct (Z.gtb_spec (varnum / 128 / 128 / 128 / 128 / 128) 0); [|reflexivity].
    exfalso. change (2 ^ 32) with 4294967296 in Hv.
    Z.to_euclidean_division_equations. lia. }
  rewrite Hlast.
  repeat match goal with
  | |- context [if ?c then _ else _] => destruct c eqn:?; eauto
  end.
Qed.

(** ** Zero-length transfers *)

(** C8.  [lwmqtt_read_data] and [lwmqtt_write_data] called with [len = 0]
    return success for every cursor pair (also one with no room left), leave
    the cursor where it was, and touch no byte: the read never looks at the
    memory and sets the output view to [NULL], the write hands back the
    memory it was given, whatever the memory and the source pointer are. *)
Theorem zero_length_fast_path :
  forall (m : memory) (buf buf_end data src : Z),
    lwmqtt_read_data buf buf_end data 0 = mk_result LWMQTT_SUCCESS buf NULL /\
    lwmqtt_write_data m buf buf_end src 0 = mk_result LWMQTT_SUCCESS buf m.
Proof. intros; split; reflexivity. Qed.

(** ** Where a failed read leaves the cursor *)

Lemma read_byte_failure m buf buf_end :
  r_err (lwmqtt_read_byte m buf buf_end) <> LWMQTT_SUCCESS ->
  r_buf (lwmqtt_read_byte m buf buf_end) = buf.
Proof. unfold lwmqtt_read_byte; destruct (buf_end <=? buf); cbn; congruence. Qed.

Lemma read_num_failure m buf buf_end :
  r_err (lwmqtt_read_num m buf buf_end) <> LWMQTT_SUCCESS ->
  r_buf (lwmqtt_read_num m buf buf_end) = buf.
Proof.
  unfold lwmqtt_read_num; destruct (to_size_t (buf_end - buf) <? 2); cbn; congruence.
Qed.

Lemma read_data_failure buf buf_end data len :
  r_err (lwmqtt_read_data buf buf_end data len) <> LWMQTT_SUCCESS ->
  r_buf (lwmqtt_read_data buf buf_end data len) = buf.
Proof.
  unfold lwmqtt_read_data.
  destruct (len =? 0); [cbn; congruence|].
  destruct (to_size_t (buf_end - buf) <? len); cbn; congruence.
Qed.

Lemma read_string_failure m buf buf_end str :
  let r := lwmqtt_read_string m buf buf_end str in
  r_err r <> LWMQTT_SUCCESS ->
  r_err r = LWMQTT_BUFFER_TOO_SHORT /\
  ((r_err (lwmqtt_read_num m buf buf_end) <> LWMQTT_SUCCESS /\ r_buf r = buf) \/
   (r_err (lwmqtt_read_num m buf buf_end) = LWMQTT_SUCCESS /\ r_buf r = buf + 2)).
Proof.
  unfold lwmqtt_read_string, lwmqtt_read_num.
  destruct (to_size_t (buf_end - buf) <? 2); cbn.
  - intros _; split; [reflexivity | left; split; congruence].
  - unfold lwmqtt_read_data.
    destruct (_ =? 0); cbn; [congruence|].
    destruct (_ <? _); cbn; [|congruence].
    intros _; split; [reflexivity | right; split; reflexivity].
Qed.

Lemma read_varnum_failure m buf buf_end :
  buf <= buf_end ->
  exists r, lwmqtt_read_varnum m buf buf_end = Some r /\
    (r_err r <> LWMQTT_SUCCESS ->
       (r_err r = LWMQTT_BUFFER_TOO_SHORT /\ r_buf r = buf_end /\ buf_end - buf <= 4) \/
       (r_err r = LWMQTT_VARNUM_OVERFLOW /\ r_buf r = buf + 4 /\ buf + 4 < buf_end)).
Proof.
  intros Hle. unroll_read_varnum.
  repeat match goal with
  | |- context [if ?c >=? ?d then _ else _] =>
      destruct (Z.geb_spec c d)
  | |- context [if ?c =? 0 then _ else _] => destruct (c =? 0)
  end;
  eexists; (split; [reflexivity|]); cbn; intros Hfail; try congruence;
  first [ left; repeat split; lia | right; repeat split; lia ].
Qed.

(** C2, counterexample.  A length prefix announcing five bytes in a buffer
    that ends right after the prefix: [lwmqtt_read_string] fails with
    BufferTooShort, yet the cursor has moved past the prefix. *)
Lemma read_string_failure_moves_cursor :
  let m := mem_of_list 100 [0; 5] in
  let r := lwmqtt_read_string m 100 102 (mk_string 0 NULL) in
  100 <= 102 /\ r_err r = LWMQTT_BUFFER_TOO_SHORT /\ r_buf r = 102 /\ r_buf r <> 100.
Proof. vm_compute. repeat split; congruence. Qed.

(** The same for [lwmqtt_read_varnum]: a lone continuation byte is consumed
    before the end of the buffer is noticed. *)
Lemma read_varnum_failure_moves_cursor :
  lwmqtt_read_varnum (mem_of_list 100 [128]) 100 101 =
  Some (mk_result LWMQTT_BUFFER_TOO_SHORT 101 0).
Proof. reflexivity. Qed.

(** C2, amended.  With the cursor at or before the limit, a failing
    [lwmqtt_read_byte], [lwmqtt_read_num] or [lwmqtt_read_data] leaves the
    cursor unchanged.  A failing [lwmqtt_read_string] leaves it where the
    failing sub-operation left it: unchanged when the length prefix could not
    be read, two bytes further when the prefix was read and the data was
    not.  [lwmqtt_read_varnum] always returns, and when it fails the cursor
    has passed every continuation group consumed: it stands at the limit (at
    most four bytes on) after BufferTooShort and exactly four bytes on after
    VarnumOverflow. *)
Theorem read_failure_cursor :
  forall (m : memory) (buf buf_end : Z),
    buf <= buf_end ->
    (r_err (lwmqtt_read_byte m buf buf_end) <> LWMQTT_SUCCESS ->
     r_buf (lwmqtt_read_byte m buf buf_end) = buf) /\
    (r_err (lwmqtt_read_num m buf buf_end) <> LWMQTT_SUCCESS ->
     r_buf (lwmqtt_read_num m buf buf_end) = buf) /\
    (forall data len,
       r_err (lwmqtt_read_data buf buf_end data len) <> LWMQTT_SUCCESS ->
       r_buf (lwmqtt_read_data buf buf_end data len) = buf) /\
    (forall str,
       let r := lwmqtt_read_string m buf buf_end str in
       r_err r <> LWMQTT_SUCCESS ->
       r_err r = LWMQTT_BUFFER_TOO_SHORT /\
       ((r_err (lwmqtt_read_num m buf buf_end) <> LWMQTT_SUCCESS /\ r_buf r = buf) \/
        (r_err (lwmqtt_read_num m buf buf_end) = LWMQTT_SUCCESS /\ r_buf r = buf + 2))) /\
    (exists r, lwmqtt_read_varnum m buf buf_end = Some r /\
       (r_err r <> LWMQTT_SUCCESS ->
          (r_err r = LWMQTT_BUFFER_TOO_SHORT /\ r_buf r = buf_end /\ buf_end - buf <= 4) \/
          (r_err r = LWMQTT_VARNUM_OVERFLOW /\ r_buf r = buf + 4 /\ buf + 4 < buf_end))).
Proof.
  intros m buf buf_end Hle.
  split; [apply read_byte_failure|].
  split; [apply read_num_failure|].
  split; [intros; now apply read_data_failure|].
  split; [intros str; apply read_string_failure|].
  now apply read_varnum_failure.
Qed.

(** Two continuation bytes that end the buffer. *)
Lemma read_failure_cursor_witness :
  exists r, lwmqtt_read_varnum (mem_of_list 100 [128; 128]) 100 102 = Some r /\
    (r_err r <> LWMQTT_SUCCESS ->
       (r_err r = LWMQTT_BUFFER_TOO_SHORT /\ r_buf r = 102 /\ 102 - 100 <= 4) \/
       (r_err r = LWMQTT_VARNUM_OVERFLOW /\ r_buf r = 100 + 4 /\ 100 + 4 < 102)).
Proof.
  apply (read_failure_cursor (mem_of_list 100 [128; 128]) 100 102).
  lia.
Defined.

(** ** Four continuation groups *)

(** C3, counterexample.  Four bytes with the continuation bit set and
    nothing after them: the bounds check of the fifth iteration comes before
    the overflow check, and the call fails with BufferTooShort. *)
Lemma read_varnum_four_groups_at_end :
  let m := mem_of_list 100 [128; 128; 128; 128] in
  (forall i, In i [0; 1; 2; 3] -> Z.land (load m (100 + i)) 128 <> 0) /\
  lwmqtt_read_varnum m 100 104 = Some (mk_result LWMQTT_BUFFER_TOO_SHORT 104 0) /\
  LWMQTT_BUFFER_TOO_SHORT <> LWMQTT_VARNUM_OVERFLOW.
Proof.
  cbv zeta. split; [|split; [reflexivity | discriminate]].
  intros i [<-|[<-|[<-|[<-|[]]]]]; vm_compute; discriminate.
Qed.

(** C3, amended.  When the first four bytes at the cursor all have the
    continuation bit set, [lwmqtt_read_varnum] consumes the four and fails:
    with VarnumOverflow when at least one more byte lies before the limit,
    with BufferTooShort when the four bytes end the buffer. *)
Theorem read_varnum_four_continuations :
  forall (m : memory) (buf buf_end : Z),
    (forall i, 0 <= i < 4 -> Z.land (load m (buf + i)) 128 <> 0) ->
    buf + 4 <= buf_end ->
    exists r, lwmqtt_read_varnum m buf buf_end = Some r /\
      r_buf r = buf + 4 /\
      r_err r = if buf + 4 <? buf_end then LWMQTT_VARNUM_OVERFLOW
                else LWMQTT_BUFFER_TOO_SHORT.
Proof.
  intros m buf buf_end Hc Hroom.
  assert (H0 : (Z.land (load m buf) 128 =? 0) = false).
  { apply Z.eqb_neq. replace buf with (buf + 0) by lia. apply Hc; lia. }
  assert (H1 : (Z.land (load m (buf + 1)) 128 =? 0) = false)
    by (apply Z.eqb_neq, Hc; lia).
  assert (H2 : (Z.land (load m (buf + 1 + 1)) 128 =? 0) = false).
  { apply Z.eqb_neq. replace (buf + 1 + 1) with (buf + 2) by lia. apply Hc; lia. }
  assert (H3 : (Z.land (load m (buf + 1 + 1 + 1)) 128 =? 0) = false).
  { apply Z.eqb_neq. replace (buf + 1 + 1 + 1) with (buf + 3) by lia. apply Hc; lia. }
  unroll_read_varnum. rewrite H0, H1, H2, H3.
  destruct (Z.geb_spec buf buf_end); [lia|].
  destruct (Z.geb_spec (buf + 1) buf_end); [lia|].
  destruct (Z.geb_spec (buf + 1 + 1) buf_end); [lia|].
  destruct (Z.geb_spec (buf + 1 + 1 + 1) buf_end); [lia|].
  destruct (Z.geb_spec (buf + 1 + 1 + 1 + 1) buf_end);
    destruct (Z.ltb_spec (buf + 4) buf_end); try lia;
    eexists; (split; [reflexivity|]); cbn; split; (lia || reflexivity).
Qed.

(** Four continuation bytes followed by a fifth byte. *)
Lemma read_varnum_four_continuations_witness :
  let m := mem_of_list 100 [255; 255; 255; 255; 1] in
  exists r, lwmqtt_read_varnum m 100 105 = Some r /\
    r_buf r = 100 + 4 /\
    r_err r = if 100 + 4 <? 105 then LWMQTT_VARNUM_OVERFLOW
              else LWMQTT_BUFFER_TOO_SHORT.
Proof.
  cbv zeta.
  apply (read_varnum_four_continuations (mem_of_list 100 [255; 255; 255; 255; 1]) 100 105).
  - intros i Hi.
    assert (Hc : i = 0 \/ i = 1 \/ i = 2 \/ i = 3) by lia.
    destruct Hc as [->|[->|[->| ->]]]; vm_compute; discriminate.
  - lia.
Defined.

(** ** Variable-length integers *)

Lemma u8_small x : 0 <= x < 256 -> u8 x = x.
Proof. intros; unfold u8; apply Z.mod_small; lia. Qed.

Lemma u32_small x : 0 <= x < 2 ^ 32 -> u32 x = x.
Proof. intros; unfold u32; apply Z.mod_small; lia. Qed.

Lemma land_127 x : Z.land x 127 = x mod 128.
Proof. change 127 with (Z.ones 7). now rewrite Z.land_ones by lia. Qed.

Lemma land_128_small d : 0 <= d < 128 -> Z.land d 128 = 0.
Proof.
  intros Hd. rewrite <- (Z.mod_small d 128) by lia.
  rewrite <- land_127, <- Z.land_assoc. change (Z.land 127 128) with 0.
  apply Z.land_0_r.
Qed.

Lemma lor_128_small d : 0 <= d < 128 -> Z.lor d 128 = d + 128.
Proof.
  intros Hd.
  rewrite <- Z.lxor_lor, <- Z.add_nocarry_lxor by now apply land_128_small.
  reflexivity.
Qed.

Lemma land_127_cont d : 0 <= d < 128 -> Z.land (d + 128) 127 = d.
Proof.
  intros Hd. rewrite land_127. rewrite <- (Z.mul_1_l 128) at 1.
  rewrite Z.mod_add by lia. apply Z.mod_small; lia.
Qed.

Lemma land_128_cont d : 0 <= d < 128 -> Z.land (d + 128) 128 = 128.
Proof.
  intros Hd. rewrite <- lor_128_small by lia.
  now rewrite Z.land_lor_distr_l, land_128_small by lia.
Qed.

(** A number is its low seven bits below the rest. *)
Lemma group_split x : Z.lor (Z.land x 127) (Z.shiftl (Z.shiftr x 7) 7) = x.
Proof.
  change 127 with (Z.ones 7).
  rewrite <- Z.ldiff_ones_r by lia. rewrite Z.lor_comm. apply Z.lor_ldiff_and.
Qed.

Lemma load_store_same m a v : load (store m a v) a = u8 v.
Proof.
  unfold load, store. rewrite Z.eqb_refl. unfold u8. apply Z.mod_mod. lia.
Qed.

Lemma group_shift_bound d s : 0 <= d < 128 -> 0 <= s <= 21 -> 0 <= Z.shiftl d s < 2 ^ 32.
Proof.
  intros Hd Hs. rewrite Z.shiftl_mul_pow2 by lia.
  assert (0 < 2 ^ s) by (apply Z.pow_pos_nonneg; lia).
  assert (2 ^ s <= 2 ^ 21) by (apply Z.pow_le_mono_r; lia).
  change (2 ^ 21) with 2097152 in *. change (2 ^ 32) with 4294967296. nia.
Qed.

(** What a successful [write_varnum_loop] wrote is read back by
    [read_varnum_loop] from the same cursor, at any limit not before the
    cursor reached, into any accumulator with room for the groups. *)
Lemma write_then_read :
  forall (n : nat) (m : memory) (buf buf_end v : Z) (w : result memory),
    0 <= v ->
    write_varnum_loop n m buf buf_end v = Some w ->
    r_err w = LWMQTT_SUCCESS ->
    (forall a, a < buf -> r_out w a = m a) /\
    buf < r_buf w /\
    forall (fuel : nat) (acc s limit : Z),
      (n <= fuel)%nat -> r_buf w <= limit ->
      0 <= s -> s + 7 * (r_buf w - buf) <= 28 ->
      read_varnum_loop fuel (r_out w) buf limit acc s =
      Some (mk_result LWMQTT_SUCCESS (r_buf w) (Z.lor acc (Z.shiftl v s))).
Proof.
  induction n as [|n IH]; intros m buf buf_end v w Hv Hw Hok; [discriminate|].
  cbn [write_varnum_loop] in Hw.
  destruct (Z.geb_spec buf buf_end) as [Hfull|Hroom].
  { inversion Hw; subst w; discriminate. }
  assert (Hd : 0 <= Z.land v 127 < 128) by (rewrite land_127; apply Z.mod_pos_bound; lia).
  rewrite (u8_small (Z.land v 127)) in Hw by lia.
  destruct (Z.gtb_spec (Z.shiftr v 7) 0) as [Hmore|Hlast].
  - (* a continuation group *)
    rewrite lor_128_small, u8_small in Hw by lia.
    destruct (IH _ _ _ _ _ (Z.lt_le_incl _ _ Hmore) Hw Hok) as (Hframe & Hcur & Hread).
    split; [|split; [lia|]].
    + intros a Ha. rewrite Hframe by lia. unfold store.
      destruct (Z.eqb_spec a buf); [lia | reflexivity].
    + intros fuel acc s limit Hfuel Hlim Hs Hfit.
      destruct fuel as [|fuel]; [lia|]. cbn [read_varnum_loop].
      destruct (Z.geb_spec buf limit); [lia|].
      destruct (Z.geb_spec s 28); [lia|].
      assert (Hbyte : load (r_out w) buf = Z.land v 127 + 128).
      { unfold load. rewrite Hframe by lia. fold (load (store m buf (Z.land v 127 + 128)) buf).
        rewrite load_store_same. apply u8_small; lia. }
      rewrite Hbyte, land_127_cont, land_128_cont by lia. cbn [Z.eqb].
      rewrite u32_small by (apply group_shift_bound; lia).
      rewrite (u8_small (s + 7)) by lia.
      rewrite Hread by lia.
      do 2 f_equal. rewrite <- (group_split v) at 3.
      rewrite Z.shiftl_lor, Z.shiftl_shiftl by lia.
      rewrite Z.lor_assoc. do 2 f_equal. lia.
  - (* the last group *)
    inversion Hw; subst w; clear Hw. cbn [r_out r_buf].
    assert (Hz : Z.shiftr v 7 = 0).
    { apply Z.le_antisymm; [lia | apply Z.shiftr_nonneg; lia]. }
    assert (Hv' : Z.land v 127 = v).
    { rewrite <- (group_split v) at 2. rewrite Hz, Z.shiftl_0_l. now rewrite Z.lor_0_r. }
    split; [|split; [lia|]].
    + intros a Ha. unfold store. destruct (Z.eqb_spec a buf); [lia | reflexivity].
    + intros fuel acc s limit Hfuel Hlim Hs Hfit.
      destruct fuel as [|fuel]; [lia|]. cbn [read_varnum_loop].
      destruct (Z.geb_spec buf limit); [lia|].
      destruct (Z.geb_spec s 28); [lia|].
      rewrite load_store_same, Hv', u8_small, Hv', land_128_small by lia.
      cbn [Z.eqb]. rewrite u32_small by (apply group_shift_bound; lia).
      reflexivity.
Qed.

(** The cursor after [lwmqtt_write_varnum] of a value below 2^28, given room
    for its groups: success, [lwmqtt_varnum_length] bytes further. *)
Lemma write_varnum_cursor :
  forall (m : memory) (buf buf_end v : Z),
    0 <= v <= 268435455 ->
    buf + snd (lwmqtt_varnum_length v) <= buf_end ->
    fst (lwmqtt_varnum_length v) = LWMQTT_SUCCESS /\
    1 <= snd (lwmqtt_varnum_length v) <= 4 /\
    exists w, lwmqtt_write_varnum m buf buf_end v = Some w /\
      r_err w = LWMQTT_SUCCESS /\
      r_buf w = buf + snd (lwmqtt_varnum_length v).
Proof.
  intros m buf buf_end v Hv.
  unfold lwmqtt_write_varnum, lwmqtt_varnum_length.
  cbn [write_varnum_loop]. rewrite !Z.shiftr_div_pow2 by lia.
  change (2 ^ 7) with 128.
  repeat match goal with
  | |- context [if ?a <? ?b then _ else _] => destruct (Z.ltb_spec a b)
  end; cbn [fst snd]; intros Hroom; try lia;
  (split; [reflexivity|]); (split; [lia|]);
  repeat match goal with
  | |- context [if ?a >=? ?b then _ else _] =>
      destruct (Z.geb_spec a b); [lia|]
  | |- context [if ?a >? ?b then _ else _] =>
      destruct (Z.gtb_spec a b);
      try (exfalso; Z.to_euclidean_division_equations; lia)
  end;
  eexists; (split; [reflexivity|]); cbn [r_err r_buf]; split; (reflexivity || lia).
Qed.

(** X1.  Round trip below 2^28: the write succeeds and advances the cursor by
    [lwmqtt_varnum_length] bytes, leaving the bytes before the cursor as they
    were, and [lwmqtt_read_varnum] from the same cursor consumes the same
    bytes and returns the value. *)
Lemma varnum_roundtrip :
  forall (m : memory) (buf buf_end v : Z),
    0 <= v <= 268435455 ->
    buf + snd (lwmqtt_varnum_length v) <= buf_end ->
    fst (lwmqtt_varnum_length v) = LWMQTT_SUCCESS /\
    exists w, lwmqtt_write_varnum m buf buf_end v = Some w /\
      r_err w = LWMQTT_SUCCESS /\
      r_buf w = buf + snd (lwmqtt_varnum_length v) /\
      lwmqtt_read_varnum (r_out w) buf buf_end =
      Some (mk_result LWMQTT_SUCCESS (r_buf w) v).
Proof.
  intros m buf buf_end v Hv Hroom.
  destruct (write_varnum_cursor m buf buf_end v Hv Hroom) as (Hlen & Hk & w & Hw & Hok & Hcur).
  split; [exact Hlen|]. exists w. repeat (split; [assumption|]).
  destruct (write_then_read 5 m buf buf_end v w (proj1 Hv) Hw Hok) as (_ & _ & Hread).
  unfold lwmqtt_read_varnum. rewrite (Hread 5%nat 0 0 buf_end) by lia.
  now rewrite Z.shiftl_0_r.
Qed.

(** The largest value, in exactly four bytes of room. *)
Lemma varnum_roundtrip_witness :
  exists w, lwmqtt_write_varnum (mem_of_list 0 []) 100 104 268435455 = Some w /\
    r_err w = LWMQTT_SUCCESS /\
    r_buf w = 100 + snd (lwmqtt_varnum_length 268435455) /\
    lwmqtt_read_varnum (r_out w) 100 104 =
    Some (mk_result LWMQTT_SUCCESS (r_buf w) 268435455).
Proof.
  apply (varnum_roundtrip (mem_of_list 0 []) 100 104 268435455).
  - lia.
  - vm_compute. discriminate.
Defined.

(** C1.  The round trip holds on [0, 268435455], as shown above; the last
    sentence of the claim does not hold of the code.  Given room,
    [lwmqtt_write_varnum] of 268435456 returns success after writing five
    groups, 0x80 0x80 0x80 0x80 0x01: it has no check of the group count.
    The two sibling functions do reject this value: [lwmqtt_varnum_length]
    answers VarnumOverflow, and [lwmqtt_read_varnum] answers VarnumOverflow
    on the five bytes just written. *)
Theorem write_varnum_268435456 :
  exists w,
    lwmqtt_write_varnum (mem_of_list 0 []) 100 108 268435456 = Some w /\
    r_err w = LWMQTT_SUCCESS /\
    r_buf w = 105 /\
    map (load (r_out w)) [100; 101; 102; 103; 104] = [128; 128; 128; 128; 1] /\
    lwmqtt_varnum_length 268435456 = (LWMQTT_VARNUM_OVERFLOW, 0) /\
    option_map r_err (lwmqtt_read_varnum (r_out w) 100 108) = Some LWMQTT_VARNUM_OVERFLOW.
Proof. eexists. split; [reflexivity|]. vm_compute. repeat split. Qed.

(** * Properties of the string utility *)

Lemma byte_of_inj x y : byte_of x = byte_of y -> x = y.
Proof.
  unfold byte_of. intros E. apply N2Z.inj in E.
  rewrite <- (ascii_N_embedding x), <- (ascii_N_embedding y). now rewrite E.
Qed.

Lemma strlen_nonneg s : 0 <= strlen s.
Proof.
  induction s as [|c s IH]; cbn [strlen]; [lia|]. destruct (byte_of c =? 0); lia.
Qed.

Lemma strlen_le_length s : (Z.to_nat (strlen s) <= String.length s)%nat.
Proof.
  induction s as [|c s IH]; cbn [strlen String.length]; [lia|].
  pose proof (strlen_nonneg s). destruct (byte_of c =? 0); lia.
Qed.

(** [*s == 0] exactly when [s] is empty as a C string. *)
Lemma deref_zero_strlen s : deref s = 0 <-> strlen s = 0.
Proof.
  destruct s as [|c s]; cbn [deref strlen]; [tauto|].
  pose proof (strlen_nonneg s).
  destruct (Z.eqb_spec (byte_of c) 0); split; intros; lia.
Qed.

(** [memcmp] over [n] readable bytes: it returns, the result is zero exactly
    when the first [n] bytes agree, and otherwise it is the difference of the
    bytes at the first index where they differ. *)
Lemma memcmp_spec :
  forall (n : nat) (p q : string),
    (n <= String.length p)%nat -> (n <= String.length q)%nat ->
    exists r, memcmp p q n = Some r /\
      (r = 0 <-> substring 0 n p = substring 0 n q) /\
      (r <> 0 ->
       exists i, (i < n)%nat /\
         substring 0 i p = substring 0 i q /\
         byte_at p i <> byte_at q i /\
         r = byte_at p i - byte_at q i).
Proof.
  induction n as [|n IH]; intros p q Hp Hq.
  - exists 0. split; [reflexivity|]. split; [|congruence].
    destruct p, q; cbn; tauto.
  - destruct p as [|x p]; [cbn in Hp; lia|].
    destruct q as [|y q]; [cbn in Hq; lia|].
    cbn [memcmp]. cbn in Hp, Hq.
    destruct (Z.eqb_spec (byte_of x) (byte_of y)) as [E|N].
    + apply byte_of_inj in E; subst y.
      destruct (IH p q ltac:(lia) ltac:(lia)) as (r & Hr & Hz & Hd).
      exists r. split; [exact Hr|]. split.
      * rewrite Hz. cbn. split; [intros ->; reflexivity | intros E; now inversion E].
      * intros Hne. destruct (Hd Hne) as (i & Hi & Hpre & Hdiff & Hval).
        exists (S i). split; [lia|]. cbn [substring].
        split; [now rewrite Hpre|]. split; assumption.
    + exists (byte_of x - byte_of y). split; [reflexivity|]. split.
      * split; [lia|]. cbn. intros E. inversion E. congruence.
      * intros _. exists 0%nat. split; [lia|].
        split; [destruct p, q; reflexivity|]. split; [exact N | reflexivity].
Qed.

(** C9.  [lwmqtt_strcmp a b] for a wire string [a] and a C string [b].
    When [b] is [NULL] or empty, the result is [0] exactly when [a] has
    length 0 and is positive (the empty [b] is the lesser) otherwise.  When
    [b] is not empty and the lengths differ, the result orders by length:
    negative when [a] is the shorter (an empty [a] included), positive when
    it is the longer.  When the lengths are equal and the data of [a] is
    readable over its length, the result is the byte-wise comparison of the
    contents: zero exactly when they agree, otherwise the difference of the
    bytes at the first index where they differ. *)
Theorem strcmp_semantics :
  forall (a : lwmqtt_string_t char_ptr) (b : char_ptr),
    ((b = None \/ exists s, b = Some s /\ strlen s = 0) ->
     exists r, lwmqtt_strcmp a b = Some r /\
       (r = 0 <-> len a = 0) /\ (len a <> 0 -> 0 < r)) /\
    (forall s, b = Some s -> strlen s <> 0 -> len a <> strlen s ->
     exists r, lwmqtt_strcmp a b = Some r /\
       (len a < strlen s -> r < 0) /\ (strlen s < len a -> 0 < r)) /\
    (forall s d, b = Some s -> strlen s <> 0 -> len a = strlen s ->
     data a = Some d -> (Z.to_nat (len a) <= String.length d)%nat ->
     exists r, lwmqtt_strcmp a b = Some r /\
       let n := Z.to_nat (len a) in
       (r = 0 <-> substring 0 n d = substring 0 n s) /\
       (r <> 0 ->
        exists i, (i < n)%nat /\
          substring 0 i d = substring 0 i s /\
          byte_at d i <> byte_at s i /\
          r = byte_at d i - byte_at s i)).
Proof.
  intros a b. split; [|split].
  - intros Hb.
    assert (E : lwmqtt_strcmp a b = Some (if len a =? 0 then 0 else 1)).
    { destruct Hb as [->|(s & -> & Hs)]; [reflexivity|].
      unfold lwmqtt_strcmp. apply deref_zero_strlen in Hs. now rewrite Hs. }
    rewrite E. eexists; split; [reflexivity|].
    destruct (Z.eqb_spec (len a) 0); split; try split; intros; lia.
  - intros s -> Hs Hne. unfold lwmqtt_strcmp.
    destruct (Z.eqb_spec (deref s) 0) as [Hz|_]; [apply deref_zero_strlen in Hz; lia|].
    destruct (Z.eqb_spec (len a) (strlen s)); [lia|]. cbn [negb].
    eexists; split; [reflexivity|].
    destruct (Z.ltb_spec (len a) (strlen s)); split; intros; lia.
  - intros s d -> Hs Hlen Hd Hvalid. unfold lwmqtt_strcmp.
    destruct (Z.eqb_spec (deref s) 0) as [Hz|_]; [apply deref_zero_strlen in Hz; lia|].
    destruct (Z.eqb_spec (len a) (strlen s)); [|lia]. cbn [negb]. rewrite Hd.
    apply memcmp_spec; [exact Hvalid|].
    rewrite Hlen. apply strlen_le_length.
Qed.

(** Two topics of length three that differ in their last byte. *)
Lemma strcmp_semantics_witness :
  exists r,
    lwmqtt_strcmp (mk_string 3 (Some "a/b"%string)) (Some "a/c"%string) = Some r /\
    let n := Z.to_nat 3 in
    (r = 0 <-> substring 0 n "a/b"%string = substring 0 n "a/c"%string) /\
    (r <> 0 ->
     exists i, (i < n)%nat /\
       substring 0 i "a/b"%string = substring 0 i "a/c"%string /\
       byte_at "a/b"%string i <> byte_at "a/c"%string i /\
       r = byte_at "a/b"%string i - byte_at "a/c"%string i).
Proof.
  apply (proj2 (proj2 (strcmp_semantics (mk_string 3 (Some "a/b"%string))
                         (Some "a/c"%string))) "a/c"%string "a/b"%string).
  - reflexivity.
  - vm_compute. discriminate.
  - reflexivity.
  - reflexivity.
  - vm_compute. lia.
Defined.

(** * Properties of the timer adapter *)

Lemma to_int32_u32 x : to_int32 (u32 x) = to_int32 x.
Proof. unfold to_int32, u32. now rewrite Z.mod_mod by lia. Qed.

Lemma to_int32_small x : - 2 ^ 31 <= x < 2 ^ 31 -> to_int32 x = x.
Proof.
  intros Hx. unfold to_int32. cbv zeta.
  destruct (Z.ltb_spec (x mod 2 ^ 32) (2 ^ 31)) as [Hlt|Hge];
    Z.to_euclidean_division_equations; lia.
Qed.

(** C6.  A timer armed with [timeout] when its clock showed [s] and queried
    when the clock shows [n] returns [timeout - ((n - s) mod 2^32)] read as a
    signed 32-bit number.  So when [d] ticks have passed and the counter has
    wrapped ([n = (s + d) mod 2^32]), the elapsed time computed is [d]
    itself, and as long as [timeout - d] is an [int32_t] the result is
    [timeout - d]: negative exactly when the timeout has passed. *)
Theorem timer_rollover :
  forall (W : Type) (C : Clock W) (t : lwmqtt_arduino_timer_t W) (timeout : Z) (w0 w1 : W),
    let s := timer_now t w0 in
    let n := timer_now t w1 in
    let armed := lwmqtt_arduino_timer_set t timeout w0 in
    lwmqtt_arduino_timer_get armed w1 = to_int32 (timeout - (n - s) mod 2 ^ 32) /\
    (forall d, 0 <= d < 2 ^ 32 -> n = (s + d) mod 2 ^ 32 ->
       (n - s) mod 2 ^ 32 = d /\
       (- 2 ^ 31 <= timeout - d < 2 ^ 31 ->
        lwmqtt_arduino_timer_get armed w1 = timeout - d /\
        (lwmqtt_arduino_timer_get armed w1 < 0 <-> timeout < d))).
Proof.
  intros W C t timeout w0 w1 s n armed.
  assert (Hget : lwmqtt_arduino_timer_get armed w1 = to_int32 (timeout - (n - s) mod 2 ^ 32)).
  { unfold lwmqtt_arduino_timer_get, armed, lwmqtt_arduino_timer_set.
    cbn [timer_start timer_timeout]. cbv zeta. rewrite to_int32_u32.
    unfold timer_now at 1 2. cbn [timer_millis]. reflexivity. }
  split; [exact Hget|].
  intros d Hd Hn.
  assert (Hel : (n - s) mod 2 ^ 32 = d).
  { rewrite Hn, Zminus_mod_idemp_l.
    replace (s + d - s) with d by lia. apply Z.mod_small; lia. }
  split; [exact Hel|]. intros Hfit.
  rewrite Hget, Hel, to_int32_small by lia. split; [reflexivity | lia].
Qed.

(** Armed ten ticks before the counter wraps, queried thirty ticks
    later. *)
Lemma timer_rollover_witness :
  let t := mk_timer 0 0 None in
  let armed := @lwmqtt_arduino_timer_set Z tick_clock t 1000 4294967286 in
  (20 - 4294967286) mod 2 ^ 32 = 30 /\
  (- 2 ^ 31 <= 1000 - 30 < 2 ^ 31 ->
   @lwmqtt_arduino_timer_get Z tick_clock armed 20 = 1000 - 30 /\
   (@lwmqtt_arduino_timer_get Z tick_clock armed 20 < 0 <-> 1000 < 30)).
Proof.
  cbv zeta.
  apply (proj2 (timer_rollover Z tick_clock (mk_timer 0 0 None) 1000 4294967286 20) 30).
  - lia.
  - reflexivity.
Defined.

(** * Properties of the transport read *)

Lemma delivered_nonneg polls : 0 <= delivered polls.
Proof.
  induction polls as [|p rest IH]; cbn [delivered]; [lia|].
  destruct (Z.gtb_spec (poll_read p) 0); lia.
Qed.

(** Turns that do not end the call and deliver less than what is still
    asked for are passed over, their bytes counted. *)
Lemma network_read_loop_quiet :
  forall (start timeout : Z) (pre rest : list poll) (len read : Z),
    Forall (quiet start timeout) pre ->
    0 <= read -> read + len < 2 ^ 32 ->
    delivered pre < len ->
    network_read_loop start timeout len read (pre ++ rest) =
    network_read_loop start timeout (len - delivered pre) (read + delivered pre) rest.
Proof.
  intros start timeout pre rest.
  induction pre as [|p pre IH]; intros len read Hq Hread Hfit Hless.
  - cbn [app delivered]. now rewrite Z.sub_0_r, Z.add_0_r.
  - inversion Hq as [|? ? [Htime Hlive] Hq']; subst.
    cbn [delivered] in Hless |- *. pose proof (delivered_nonneg pre) as Hpre.
    cbn [app network_read_loop].
    unfold in_time in Htime.
    destruct (Z.gtb_spec len 0) as [_|Hlen];
      [|destruct (Z.gtb_spec (poll_read p) 0); lia].
    destruct (Z.geb_spec (u32 (poll_millis p - start)) timeout); [lia|].
    destruct (Z.gtb_spec (poll_read p) 0) as [Hr|Hr].
    + unfold to_size_t. rewrite !Z.mod_small by lia.
      rewrite IH by (assumption || lia). f_equal; lia.
    + destruct (Z.eqb_spec (poll_connected p) 0) as [Hdead|_]; [now apply Hlive in Hdead|].
      rewrite IH by (assumption || lia). f_equal; lia.
Qed.

(** C7.  A read of [len] bytes whose first turns [pre] all come before the
    deadline with the stream connected and deliver less than [len] bytes is
    decided by the next turn [p].  If [p] comes at or after the deadline, the
    call returns Timeout when no byte was delivered and Success when at least
    one was, however few.  If [p] comes before the deadline, reads nothing
    and finds the stream disconnected, the call returns NetworkFailedRead.
    If [p] comes before the deadline and delivers the rest, the call returns
    Success with all [len] bytes.  [*read] is the number of bytes delivered
    in each case. *)
Theorem network_read_completion :
  forall (start timeout len : Z) (pre : list poll) (p : poll) (rest : list poll),
    0 < len < 2 ^ 32 ->
    Forall (quiet start timeout) pre ->
    delivered pre < len ->
    let outcome := lwmqtt_arduino_network_read start len timeout (pre ++ p :: rest) in
    (~ in_time start timeout p ->
     outcome = Returned (if delivered pre =? 0 then LWMQTT_NETWORK_TIMEOUT
                         else LWMQTT_SUCCESS) (delivered pre)) /\
    (in_time start timeout p -> poll_read p <= 0 -> poll_connected p = 0 ->
     outcome = Returned LWMQTT_NETWORK_FAILED_READ (delivered pre)) /\
    (in_time start timeout p -> poll_read p = len - delivered pre ->
     outcome = Returned LWMQTT_SUCCESS len).
Proof.
  intros start timeout len pre p rest Hlen Hq Hless outcome.
  pose proof (delivered_nonneg pre) as Hpre.
  assert (Hrun : outcome =
                 network_read_loop start timeout (len - delivered pre) (delivered pre)
                   (p :: rest)).
  { unfold outcome, lwmqtt_arduino_network_read.
    rewrite network_read_loop_quiet by (assumption || lia). reflexivity. }
  rewrite Hrun. cbn [network_read_loop]. unfold in_time.
  destruct (Z.gtb_spec (len - delivered pre) 0) as [_|]; [|lia].
  split; [|split].
  - intros Hlate.
    destruct (Z.geb_spec (u32 (poll_millis p - start)) timeout); [reflexivity | lia].
  - intros Htime Hnone Hdead.
    destruct (Z.geb_spec (u32 (poll_millis p - start)) timeout); [lia|].
    destruct (Z.gtb_spec (poll_read p) 0); [lia|].
    now rewrite Hdead.
  - intros Htime Hall.
    destruct (Z.geb_spec (u32 (poll_millis p - start)) timeout); [lia|].
    destruct (Z.gtb_spec (poll_read p) 0); [|lia].
    rewrite Hall. unfold to_size_t.
    replace (len - delivered pre - (len - delivered pre)) with 0 by lia.
    replace (delivered pre + (len - delivered pre)) with len by lia.
    rewrite (Z.mod_small len) by lia. change (0 mod 2 ^ 32) with 0.
    destruct rest; cbn [network_read_loop]; cbn [Z.gtb Z.compare];
      destruct (Z.eqb_spec len 0); (lia || reflexivity).
Qed.

(** A request for no byte returns Timeout at once. *)
Lemma network_read_nothing_requested start timeout polls :
  lwmqtt_arduino_network_read start 0 timeout polls = Returned LWMQTT_NETWORK_TIMEOUT 0.
Proof. destruct polls; reflexivity. Qed.

(** Before any deciding turn the call is still polling. *)
Lemma network_read_still_polling start timeout len pre :
  0 < len < 2 ^ 32 ->
  Forall (quiet start timeout) pre ->
  delivered pre < len ->
  lwmqtt_arduino_network_read start len timeout pre =
  Polling (len - delivered pre) (delivered pre).
Proof.
  intros Hlen Hq Hless. unfold lwmqtt_arduino_network_read.
  rewrite <- (app_nil_r pre) at 1.
  rewrite network_read_loop_quiet by (assumption || lia).
  cbn [network_read_loop]. destruct (Z.gtb_spec (len - delivered pre) 0); [reflexivity|lia].
Qed.

(** Every return of the call is one of these three cases, as long as the
    stream never delivers more than it is asked for. *)
Lemma network_read_returned_inv :
  forall (start timeout : Z) (polls : list poll) (len read : Z) (e : lwmqtt_err_t) (n : Z),
    0 < len -> 0 <= read -> read + len < 2 ^ 32 ->
    honest len polls ->
    network_read_loop start timeout len read polls = Returned e n ->
    exists pre p rest,
      polls = pre ++ p :: rest /\
      Forall (quiet start timeout) pre /\
      delivered pre < len /\
      ((~ in_time start timeout p /\ n = read + delivered pre /\
        e = (if n =? 0 then LWMQTT_NETWORK_TIMEOUT else LWMQTT_SUCCESS)) \/
       (in_time start timeout p /\ poll_read p <= 0 /\ poll_connected p = 0 /\
        n = read + delivered pre /\ e = LWMQTT_NETWORK_FAILED_READ) \/
       (in_time start timeout p /\ poll_read p = len - delivered pre /\
        n = read + len /\ e = LWMQTT_SUCCESS)).
Proof.
  intros start timeout polls.
  induction polls as [|p polls IH]; intros len read e n Hlen Hread Hfit Hh Hrun.
  - cbn [network_read_loop] in Hrun.
    destruct (Z.gtb_spec len 0); [discriminate | lia].
  - cbn [network_read_loop] in Hrun. cbn [honest] in Hh. destruct Hh as [Hle Hh].
    destruct (Z.gtb_spec len 0) as [_|]; [|lia].
    destruct (Z.geb_spec (u32 (poll_millis p - start)) timeout) as [Hlate|Htime].
    { inversion Hrun; subst. exists [], p, polls. cbn [app delivered].
      split; [reflexivity|]. split; [constructor|]. split; [lia|].
      left. unfold in_time. rewrite Z.add_0_r. repeat split; lia || reflexivity. }
    destruct (Z.gtb_spec (poll_read p) 0) as [Hr|Hr].
    + unfold to_size_t in Hrun. rewrite !Z.mod_small in Hrun by lia.
      destruct (Z.eq_dec (poll_read p) len) as [Hall|Hpart].
      * exists [], p, polls. cbn [app delivered].
        split; [reflexivity|]. split; [constructor|]. split; [lia|].
        right; right. unfold in_time.
        replace (len - poll_read p) with 0 in Hrun by lia.
        assert (Hret : network_read_loop start timeout 0 (read + poll_read p) polls =
                       Returned (if read + poll_read p =? 0 then LWMQTT_NETWORK_TIMEOUT
                                 else LWMQTT_SUCCESS) (read + poll_read p))
          by (destruct polls; reflexivity).
        rewrite Hret in Hrun. inversion Hrun; subst.
        destruct (Z.eqb_spec (read + poll_read p) 0); [lia|].
        repeat split; lia || reflexivity.
      * destruct (IH (len - poll_read p) (read + poll_read p) e n)
          as (pre & q & rest & -> & Hq & Hless & Hcase); [lia | lia | lia | exact Hh | exact Hrun |].
        exists (p :: pre), q, rest. cbn [app delivered].
        destruct (Z.gtb_spec (poll_read p) 0); [|lia].
        split; [reflexivity|].
        split; [constructor; [split; [exact Htime | lia] | exact Hq]|].
        split; [lia|].
        destruct Hcase as [(A & B & C)|[(A & B & C & D & E)|(A & B & C & D)]].
        -- left. repeat split; (assumption || lia).
        -- right; left. repeat split; (assumption || lia).
        -- right; right. repeat split; (assumption || lia).
    + destruct (Z.eqb_spec (poll_connected p) 0) as [Hdead|Hlive].
      * inversion Hrun; subst. exists [], p, polls. cbn [app delivered].
        split; [reflexivity|]. split; [constructor|]. split; [lia|].
        right; left. unfold in_time. repeat split; lia || reflexivity.
      * destruct (IH _ _ _ _ Hlen Hread Hfit Hh Hrun)
          as (pre & q & rest & -> & Hq & Hless & Hcase).
        exists (p :: pre), q, rest. cbn [app delivered].
        destruct (Z.gtb_spec (poll_read p) 0); [lia|].
        split; [reflexivity|].
        split; [constructor; [split; [exact Htime | intros _; exact Hlive] | exact Hq]|].
        split; [lia|].
        destruct Hcase as [(A & B & C)|[(A & B & C & D & E)|(A & B & C & D)]].
        -- left. repeat split; (assumption || lia).
        -- right; left. repeat split; (assumption || lia).
        -- right; right. repeat split; (assumption || lia).
Qed.

(** A read started six ticks before the counter wraps: an empty turn, a
    turn of three bytes, then the deadline. *)
Lemma network_read_completion_witness :
  lwmqtt_arduino_network_read 4294967290 10 50
    ([mk_poll 4294967295 0 1; mk_poll 4 3 1] ++ mk_poll 44 0 1 :: []) =
  Returned (if delivered [mk_poll 4294967295 0 1; mk_poll 4 3 1] =? 0
            then LWMQTT_NETWORK_TIMEOUT else LWMQTT_SUCCESS)
    (delivered [mk_poll 4294967295 0 1; mk_poll 4 3 1]).
Proof.
  refine (proj1 (network_read_completion 4294967290 50 10
                   [mk_poll 4294967295 0 1; mk_poll 4 3 1] (mk_poll 44 0 1) [] _ _ _) _).
  - lia.
  - repeat constructor; unfold in_time; vm_compute; congruence.
  - vm_compute. reflexivity.
  - unfold in_time. vm_compute. congruence.
Defined.

(** * Properties of the message dispatch *)

Lemma can_terminate_spec cb buf_base buf_cap ptr n :
  buf_base = match cb_client cb with Some c => readBufferPtr c | None => NULL end ->
  buf_cap = match cb_client cb with Some c => to_size_t (readBufferSize c + 1) | None => 0 end ->
  can_terminate buf_base (if buf_base =? NULL then NULL else buf_base + buf_cap) ptr n = true <->
  in_read_buffer cb ptr n.
Proof.
  intros -> ->. unfold can_terminate, in_read_buffer, readBufferPtr, readBufferSize.
  destruct (cb_client cb) as [c|].
  - destruct (Z.eqb_spec (readBuf c) NULL) as [Hnull|Hbase].
    + split; [discriminate|]. intros (c' & E & Hne & _). inversion E; subst. contradiction.
    + rewrite andb_true_iff, Z.geb_le, Z.ltb_lt. split.
      * intros [Hlo Hhi]. exists c. repeat split; assumption.
      * intros (c' & E & _ & Hlo & Hhi). inversion E; subst. split; assumption.
  - cbn. split; [discriminate|]. intros (c' & E & _). discriminate.
Qed.

Lemma store_at m a v x : store m a v x = if x =? a then u8 v else m x.
Proof. reflexivity. Qed.

Lemma store_zero m a x : store m a 0 x <> m x -> x = a /\ store m a 0 x = 0.
Proof.
  unfold store. destruct (Z.eqb_spec x a); [split; [assumption | reflexivity] | congruence].
Qed.

(** The memory the handler leaves differs from the one it found at most one
    byte past a view that passed the containment check, and holds [0]
    there. *)
Lemma handler_writes (m : memory) (cb : MQTTClientCallback)
  (topic : lwmqtt_string_t Z) (message : lwmqtt_message_t Z) (a : Z) :
  fst (MQTTClientHandler m cb topic message) a <> m a ->
  fst (MQTTClientHandler m cb topic message) a = 0 /\
  ((a = data topic + len topic /\ in_read_buffer cb (data topic) (len topic)) \/
   (a = msg_payload message + msg_payload_len message /\
    msg_payload message <> NULL /\
    in_read_buffer cb (msg_payload message) (msg_payload_len message))).
Proof.
  unfold MQTTClientHandler.
  set (buf_base := match cb_client cb with Some c => readBufferPtr c | None => NULL end).
  set (buf_cap := match cb_client cb with
                  | Some c => to_size_t (readBufferSize c + 1) | None => 0 end).
  pose proof (can_terminate_spec cb buf_base buf_cap (data topic) (len topic)
                eq_refl eq_refl) as Ht.
  pose proof (can_terminate_spec cb buf_base buf_cap (msg_payload message)
                (msg_payload_len message) eq_refl eq_refl) as Hp.
  set (tend := if buf_base =? NULL then NULL else buf_base + buf_cap) in *.
  assert (Hm2 :
    forall m2,
      m2 = (if negb (msg_payload message =? NULL)
               && can_terminate buf_base tend (msg_payload message) (msg_payload_len message)
            then store (if can_terminate buf_base tend (data topic) (len topic)
                        then store m (data topic + len topic) 0 else m)
                   (msg_payload message + msg_payload_len message) 0
            else (if can_terminate buf_base tend (data topic) (len topic)
                  then store m (data topic + len topic) 0 else m)) ->
      m2 a <> m a ->
      m2 a = 0 /\
      ((a = data topic + len topic /\ in_read_buffer cb (data topic) (len topic)) \/
       (a = msg_payload message + msg_payload_len message /\
        msg_payload message <> NULL /\
        in_read_buffer cb (msg_payload message) (msg_payload_len message)))).
  { intros m2 -> Hdiff.
    destruct (Z.eqb_spec (msg_payload message) NULL) as [Hnull|Hnn]; cbn [negb andb] in *.
    - destruct (can_terminate buf_base tend (data topic) (len topic)); [|congruence].
      destruct (store_zero _ _ _ Hdiff) as [-> ->].
      split; [reflexivity | left; split; [reflexivity | now apply Ht]].
    - destruct (can_terminate buf_base tend (msg_payload message) (msg_payload_len message)).
      + rewrite (store_at _ (msg_payload message + msg_payload_len message)) in Hdiff |- *.
        destruct (Z.eqb_spec a (msg_payload message + msg_payload_len message)).
        * split; [reflexivity | right; repeat split; (assumption || now apply Hp)].
        * destruct (can_terminate buf_base tend (data topic) (len topic)); [|congruence].
          destruct (store_zero _ _ _ Hdiff) as [-> ->].
          split; [reflexivity | left; split; [reflexivity | now apply Ht]].
      + destruct (can_terminate buf_base tend (data topic) (len topic)); [|congruence].
        destruct (store_zero _ _ _ Hdiff) as [-> ->].
        split; [reflexivity | left; split; [reflexivity | now apply Ht]]. }
  destruct (cb_type cb); cbn [fst]; try congruence; apply Hm2; reflexivity.
Qed.

(** No byte outside the [readBufSize + 1] bytes of the session's read
    buffer is changed, and none at all when the callback has no session. *)
Lemma handler_outside_read_buffer (m : memory) (cb : MQTTClientCallback)
  (topic : lwmqtt_string_t Z) (message : lwmqtt_message_t Z) (a : Z) :
  0 <= len topic -> 0 <= msg_payload_len message ->
  match cb_client cb with
  | None => True
  | Some c => 0 <= readBufSize c /\ (a < readBuf c \/ readBuf c + readBufSize c + 1 <= a)
  end ->
  fst (MQTTClientHandler m cb topic message) a = m a.
Proof.
  intros Htl Hpl Hout.
  destruct (Z.eq_dec (fst (MQTTClientHandler m cb topic message) a) (m a)) as [E|N];
    [exact E | exfalso].
  destruct (handler_writes m cb topic message a N) as [_ Hwhere].
  assert (Hin : forall ptr n, 0 <= n -> a = ptr + n -> in_read_buffer cb ptr n -> False).
  { intros ptr n Hn -> (c & Hc & _ & Hlo & Hhi). rewrite Hc in Hout.
    destruct Hout as [Hsize Hside]. unfold to_size_t in Hhi.
    pose proof (Z.mod_le (readBufSize c + 1) (2 ^ 32) ltac:(lia) ltac:(lia)). lia. }
  destruct Hwhere as [[Ha Hb] | (Ha & _ & Hb)];
    [exact (Hin _ _ Htl Ha Hb) | exact (Hin _ _ Hpl Ha Hb)].
Qed.

Lemma in_read_buffer_of_view cb c ptr n :
  cb_client cb = Some c -> readBuf c <> NULL ->
  0 <= readBufSize c < 2 ^ 32 - 1 ->
  readBuf c <= ptr -> ptr + n <= readBuf c + readBufSize c ->
  in_read_buffer cb ptr n.
Proof.
  intros Hc Hbase Hsize Hlo Hhi. exists c. repeat split; try assumption.
  unfold to_size_t. rewrite Z.mod_small by lia. lia.
Qed.

(** C5.  The handler of inbound messages.
    - For a raw callback (plain or [std::function]) the memory is left as it
      was, and the callback receives the topic and payload pointers with the
      lengths of the decode step.
    - Whatever the callback kind, a byte of memory changes only one byte past
      the topic or the (non-null) payload view, only when that view passed the
      containment check against the read buffer of the callback's session
      ([readBuf <= ptr] and [ptr + len < readBuf + readBufSize + 1]), and it
      becomes [0]; for views of non-negative length the byte lies inside the
      [readBufSize + 1] bytes allocated.  A view from elsewhere is not written
      to.
    - For a null-terminating callback (simple or advanced, plain or
      [std::function]), a view inside the read buffer that ends at its last
      valid offset or before has [0] one byte past its end afterwards. *)
Theorem handler_termination_safety :
  forall (m : memory) (cb : MQTTClientCallback)
         (topic : lwmqtt_string_t Z) (message : lwmqtt_message_t Z),
    let after := fst (MQTTClientHandler m cb topic message) in
    (cb_type cb = MQTT_CB_RAW \/ cb_type cb = MQTT_CB_FUNC_RAW ->
     MQTTClientHandler m cb topic message =
     (m, Some (cb_type cb,
               args_raw (cb_client cb) (data topic) (len topic)
                 (msg_payload message) (msg_payload_len message)))) /\
    (forall a, after a <> m a ->
       after a = 0 /\
       ((a = data topic + len topic /\ in_read_buffer cb (data topic) (len topic)) \/
        (a = msg_payload message + msg_payload_len message /\
         msg_payload message <> NULL /\
         in_read_buffer cb (msg_payload message) (msg_payload_len message))) /\
       (forall c, cb_client cb = Some c -> 0 <= readBufSize c ->
          0 <= len topic -> 0 <= msg_payload_len message ->
          readBuf c <= a < readBuf c + (readBufSize c + 1))) /\
    (null_terminating (cb_type cb) ->
     forall c, cb_client cb = Some c -> readBuf c <> NULL ->
       0 <= readBufSize c < 2 ^ 32 - 1 ->
       (readBuf c <= data topic ->
        data topic + len topic <= readBuf c + readBufSize c ->
        after (data topic + len topic) = 0) /\
       (msg_payload message <> NULL ->
        readBuf c <= msg_payload message ->
        msg_payload message + msg_payload_len message <= readBuf c + readBufSize c ->
        after (msg_payload message + msg_payload_len message) = 0)).
Proof.
  intros m cb topic message after. split; [|split].
  - unfold MQTTClientHandler. intros [-> | ->]; reflexivity.
  - intros a Hdiff.
    destruct (handler_writes m cb topic message a Hdiff) as [Hzero Hwhere].
    split; [exact Hzero|]. split; [exact Hwhere|].
    intros c Hc Hsize Htl Hpl.
    assert (Hin : forall ptr n, 0 <= n -> in_read_buffer cb ptr n ->
              readBuf c <= ptr + n < readBuf c + (readBufSize c + 1)).
    { intros ptr n Hn (c' & Hc' & _ & Hlo & Hhi).
      rewrite Hc in Hc'. inversion Hc'; subst c'.
      unfold to_size_t in Hhi.
      pose proof (Z.mod_le (readBufSize c + 1) (2 ^ 32) ltac:(lia) ltac:(lia)).
      lia. }
    destruct Hwhere as [[-> Hb] | (-> & _ & Hb)]; now apply Hin.
  - intros Hkind c Hc Hbase Hsize.
    assert (Ht : readBuf c <= data topic ->
                 data topic + len topic <= readBuf c + readBufSize c ->
                 can_terminate
                   (match cb_client cb with Some c => readBufferPtr c | None => NULL end)
                   (if match cb_client cb with Some c => readBufferPtr c | None => NULL end
                       =? NULL then NULL
                    else match cb_client cb with Some c => readBufferPtr c | None => NULL end
                         + match cb_client cb with
                           | Some c => to_size_t (readBufferSize c + 1) | None => 0 end)
                   (data topic) (len topic) = true).
    { intros Hlo Hhi. apply (can_terminate_spec cb _ _ _ _ eq_refl eq_refl).
      now apply (in_read_buffer_of_view cb c). }
    assert (Hp : readBuf c <= msg_payload message ->
                 msg_payload message + msg_payload_len message <= readBuf c + readBufSize c ->
                 can_terminate
                   (match cb_client cb with Some c => readBufferPtr c | None => NULL end)
                   (if match cb_client cb with Some c => readBufferPtr c | None => NULL end
                       =? NULL then NULL
                    else match cb_client cb with Some c => readBufferPtr c | None => NULL end
                         + match cb_client cb with
                           | Some c => to_size_t (readBufferSize c + 1) | None => 0 end)
                   (msg_payload message) (msg_payload_len message) = true).
    { intros Hlo Hhi. apply (can_terminate_spec cb _ _ _ _ eq_refl eq_refl).
      now apply (in_read_buffer_of_view cb c). }
    unfold after, MQTTClientHandler.
    split.
    + intros Hlo Hhi. rewrite (Ht Hlo Hhi).
      destruct Hkind as [-> | [-> | [-> | ->]]]; cbn [fst];
        match goal with
        | |- (if ?g then _ else _) _ = 0 =>
            destruct g; rewrite ?store_at;
            repeat match goal with
            | |- context [?x =? ?y] => destruct (Z.eqb_spec x y)
            end; try reflexivity; try congruence
        end.
    + intros Hnn Hlo Hhi. rewrite (Hp Hlo Hhi).
      destruct (Z.eqb_spec (msg_payload message) NULL) as [|_]; [contradiction|].
      cbn [negb andb].
      destruct Hkind as [-> | [-> | [-> | ->]]]; cbn [fst];
        rewrite store_at, Z.eqb_refl; reflexivity.
Qed.

(** A payload that ends at the last valid offset of an 8-byte read
    buffer: the terminator goes to the reserved ninth byte. *)
Lemma handler_termination_safety_witness :
  let c := mk_client 1000 2000 true None None 8 8 1000 0 1883 10 0 true false true 0
             LWMQTT_SUCCESS in
  let cb := mk_callback (Some c) MQTT_CB_ADVANCED in
  let m := mem_of_list 1000 [97; 47; 98; 104; 101; 108; 108; 111; 33] in
  fst (MQTTClientHandler m cb (mk_string 3 1000) (mk_message 0 false 1003 5)) (1003 + 5) = 0.
Proof.
  cbv zeta.
  refine (proj2 (proj2 (proj2 (handler_termination_safety
            (mem_of_list 1000 [97; 47; 98; 104; 101; 108; 108; 111; 33])
            (mk_callback
               (Some (mk_client 1000 2000 true None None 8 8 1000 0 1883 10 0 true false true 0
                        LWMQTT_SUCCESS)) MQTT_CB_ADVANCED)
            (mk_string 3 1000) (mk_message 0 false 1003 5))) _ _ eq_refl _ _) _ _ _).
  - right; left; reflexivity.
  - cbn. discriminate.
  - cbn. lia.
  - cbn. discriminate.
  - cbn. lia.
  - cbn. lia.
Defined.

(** In-place termination when nothing separates the two views in the read
    buffer: the terminator of the topic is the first byte of the payload the
    callback then reads. *)
Example handler_adjacent_views :
  let c := mk_client 1000 2000 true None None 8 8 1000 0 1883 10 0 true false true 0
             LWMQTT_SUCCESS in
  let cb := mk_callback (Some c) MQTT_CB_SIMPLE in
  let m := mem_of_list 1000 [97; 47; 98; 104; 105] in
  snd (MQTTClientHandler m cb (mk_string 3 1000) (mk_message 0 false 1003 2)) =
  Some (MQTT_CB_SIMPLE, args_simple [97; 47; 98] [0; 105]).
Proof. vm_compute. reflexivity. Qed.

(** * Properties of the session driver *)

(** [connected] leaves the world as it is, or as the one query of the
    transport left it; it does not touch it when the flag is clear or no
    transport is set. *)
Lemma connected_world {W : Type} `{Client W} (c : MQTTClient) (w : W) :
  (_connected c = false \/ netClient c = false -> connected c w = (false, w)) /\
  (snd (connected c w) = w \/ snd (connected c w) = snd (client_connected w)).
Proof.
  unfold connected. split.
  - intros [-> | Hn]; [reflexivity|]. rewrite Hn. now destruct (_connected c).
  - destruct (_connected c); cbn [negb]; [|now left].
    destruct (netClient c); cbn [negb]; [|now left].
    destruct (client_connected w). now right.
Qed.

(** C4.  When [connected()] answers false, each of [publish], [subscribe],
    [unsubscribe], [loop] and [disconnect] returns false with the session
    unchanged and the world as [connected()] itself left it: nothing is asked
    of the transport or the protocol engine after the guard.  The guard does
    not touch the world when the flag is clear (or no transport is set), and
    otherwise makes the one query of the transport that tells it the
    connection is gone. *)
Theorem session_guard :
  forall (W : Type) (T : Client W) (E : Engine W) (c : MQTTClient) (w : W),
    fst (connected c w) = false ->
    let w0 := snd (connected c w) in
    (forall topic payload length retained qos,
       publish topic payload length retained qos c w = (false, c, w0)) /\
    (forall topic qos, subscribe topic qos c w = (false, c, w0)) /\
    (forall topic, unsubscribe topic c w = (false, c, w0)) /\
    loop c w = (false, c, w0) /\
    disconnect c w = (false, c, w0) /\
    (_connected c = false \/ netClient c = false -> w0 = w) /\
    (w0 = w \/ w0 = snd (client_connected w)).
Proof.
  intros W T E c w Hdown w0.
  unfold publish, subscribe, unsubscribe, loop, disconnect.
  subst w0. destruct (connected c w) as [up w0] eqn:Hc. cbn [fst snd] in *. subst up.
  cbn [negb].
  repeat (split; [intros; reflexivity|]).
  pose proof (connected_world c w) as [Hclear Hquery]. rewrite Hc in *. cbn [snd] in Hquery.
  split; [|exact Hquery].
  intros Hflag. specialize (Hclear Hflag). now inversion Hclear.
Qed.

(** On the logging transport: the flag is set, the transport answers that
    the connection is gone, and [publish] makes that one query and no other
    call. *)
Lemma session_guard_witness :
  let c := mk_client 1000 2000 true None None 8 8 1000 0 1883 10 0 true false true 0
             LWMQTT_SUCCESS in
  @publish logged logged_client logged_engine (Some "a/b"%string) (Some "hi"%string) 2 false 0
    c (mk_logged 0 []) =
  (false, c, mk_logged 0 [called_connected]).
Proof.
  cbv zeta.
  refine (proj1 (session_guard logged logged_client logged_engine
            (mk_client 1000 2000 true None None 8 8 1000 0 1883 10 0 true false true 0
               LWMQTT_SUCCESS) (mk_logged 0 []) _) _ _ _ _ _).
  reflexivity.
Defined.

(** With the flag clear the log stays empty, whatever the transport would
    answer. *)
Lemma session_guard_flag_clear :
  let c := mk_client 1000 2000 true None None 8 8 1000 0 1883 10 0 true false false 0
             LWMQTT_SUCCESS in
  @loop logged logged_client logged_engine c (mk_logged 1 []) = (false, c, mk_logged 1 []) /\
  @disconnect logged logged_client logged_engine c (mk_logged 1 []) =
  (false, c, mk_logged 1 []).
Proof. split; reflexivity. Qed.

(** For contrast, the same [loop] on a live connection reaches the transport
    and the engine. *)
Lemma loop_when_connected :
  let c := mk_client 1000 2000 true None None 8 8 1000 0 1883 10 0 true false true 0
             LWMQTT_SUCCESS in
  @loop logged logged_client logged_engine c (mk_logged 1 []) =
  (true, c, mk_logged 1 [called_connected; called_available; called_engine]).
Proof. reflexivity. Qed.

(** C10.  [setWill] with a null topic, or with a topic whose first character
    is the terminator (a topic of length zero), returns the session as it
    was and does nothing on the heap: a will installed before is still
    there, and none of its memory was released. *)
Theorem setWill_without_topic :
  forall (a : allocator) (topic payload : char_ptr) (retained : bool) (qos : Z)
         (c : MQTTClient),
    (topic = None \/ exists t, topic = Some t /\ strlen t = 0) ->
    setWill a topic payload retained qos c = (c, []) /\
    will (fst (setWill a topic payload retained qos c)) = will c.
Proof.
  intros a topic payload retained qos c Htopic.
  assert (E : setWill a topic payload retained qos c = (c, [])).
  { destruct Htopic as [-> | (t & -> & Hlen)]; [reflexivity|].
    unfold setWill. apply deref_zero_strlen in Hlen. now rewrite Hlen. }
  now rewrite E.
Qed.

(** An empty topic on a session that has a will. *)
Lemma setWill_without_topic_witness :
  let w := mk_will (mk_string 6 (Some "status"%string)) (mk_string 4 (Some "gone"%string))
             true 1 in
  let c := mk_client 1000 2000 true None (Some w) 8 8 1000 0 1883 10 0 true false false 0
             LWMQTT_SUCCESS in
  setWill (mk_allocator true true true) (Some ""%string) (Some "x"%string) false 0 c = (c, []) /\
  will (fst (setWill (mk_allocator true true true) (Some ""%string) (Some "x"%string)
               false 0 c)) = will c.
Proof.
  cbv zeta.
  apply (setWill_without_topic (mk_allocator true true true) (Some ""%string)).
  right. exists ""%string. split; reflexivity.
Defined.

(** For contrast, a topic that is not empty replaces the will: the old
    payload, topic and record are released before the new ones are
    allocated. *)
Lemma setWill_replaces :
  let w := mk_will (mk_string 6 (Some "status"%string)) (mk_string 4 (Some "gone"%string))
             true 1 in
  let c := mk_client 1000 2000 true None (Some w) 8 8 1000 0 1883 10 0 true false false 0
             LWMQTT_SUCCESS in
  setWill (mk_allocator true true true) (Some "t"%string) None false 0 c =
  (set_will c (Some (mk_will (mk_string 1 (Some "t"%string)) (mk_string 0 None) false 0)),
   [heap_free_string (Some "gone"%string); heap_free_string (Some "status"%string);
    heap_free_will; heap_malloc_will; heap_strdup "t"%string]).
Proof. reflexivity. Qed.

(** * Further properties of the buffer codec *)

(** ** Bit fields *)

Lemma field_mask num : 0 <= num < 32 -> u32 (u32 (Z.shiftl 1 num) - 1) = Z.ones num.
Proof.
  intros Hn. rewrite Z.shiftl_1_l, Z.ones_equiv.
  assert (0 < 2 ^ num) by (apply Z.pow_pos_nonneg; lia).
  assert (2 ^ num < 2 ^ 32) by (apply Z.pow_lt_mono_r; lia).
  unfold u32. rewrite (Z.mod_small (2 ^ num)) by lia. rewrite Z.mod_small by lia. lia.
Qed.

(** The bits of the byte [lwmqtt_write_bits] leaves: those of [value] in the
    field, those of [byte] elsewhere. *)
Lemma write_bits_testbit byte value pos num i :
  0 <= pos -> 0 <= num -> pos + num <= 8 -> 0 <= i ->
  Z.testbit (lwmqtt_write_bits byte value pos num) i =
  if (pos <=? i) && (i <? pos + num) then Z.testbit value (i - pos)
  else (i <? 8) && Z.testbit byte i.
Proof.
  intros Hp Hn Hfit Hi. unfold lwmqtt_write_bits. cbv zeta.
  rewrite field_mask by lia. unfold u8, u32.
  rewrite !Z.testbit_mod_pow2, Z.lor_spec, !Z.land_spec, Z.lnot_spec by lia.
  rewrite !Z.testbit_mod_pow2, !Z.shiftl_spec, Z.testbit_ones by lia.
  bit_cases; destruct (Z.testbit byte i), (Z.testbit value (i - pos)); reflexivity.
Qed.

Lemma read_bits_testbit byte pos num i :
  0 <= pos -> 0 <= num < 32 -> 0 <= i ->
  Z.testbit (lwmqtt_read_bits byte pos num) i =
  (i <? 8) && (i <? num) && Z.testbit byte (i + pos).
Proof.
  intros Hp Hn Hi. unfold lwmqtt_read_bits. rewrite field_mask by lia. unfold u8.
  rewrite Z.testbit_mod_pow2, Z.land_spec, Z.shiftr_spec, Z.testbit_ones by lia.
  bit_cases; destruct (Z.testbit byte (i + pos)); reflexivity.
Qed.

(** X2.  A field of [num] bits at offset [pos] inside a byte: what
    [lwmqtt_write_bits] stores is a byte, [lwmqtt_read_bits] reads back the
    low [num] bits of the value stored, and every field that does not overlap
    the one written reads as before. *)
Theorem bit_field_roundtrip :
  forall (byte value pos num : Z),
    0 <= pos -> 0 <= num -> pos + num <= 8 ->
    0 <= lwmqtt_write_bits byte value pos num < 256 /\
    lwmqtt_read_bits (lwmqtt_write_bits byte value pos num) pos num = value mod 2 ^ num /\
    (forall pos' num',
       0 <= pos' -> 0 <= num' -> pos' + num' <= 8 ->
       pos' + num' <= pos \/ pos + num <= pos' ->
       lwmqtt_read_bits (lwmqtt_write_bits byte value pos num) pos' num' =
       lwmqtt_read_bits byte pos' num').
Proof.
  intros byte value pos num Hp Hn Hfit. split; [|split].
  - unfold lwmqtt_write_bits, u8. cbv zeta.
    match goal with |- 0 <= ?x mod _ < _ => pose proof (Z.mod_pos_bound x (2 ^ 8)) end.
    change (2 ^ 8) with 256 in *. lia.
  - apply Z.bits_inj'. intros i Hi.
    rewrite read_bits_testbit, write_bits_testbit, Z.testbit_mod_pow2 by lia.
    replace (i + pos - pos) with i by lia.
    bit_cases; destruct (Z.testbit value i); reflexivity.
  - intros pos' num' Hp' Hn' Hfit' Hapart.
    apply Z.bits_inj'. intros i Hi.
    rewrite !read_bits_testbit, write_bits_testbit by lia.
    bit_cases; destruct (Z.testbit byte (i + pos')); reflexivity.
Qed.

(** The QoS field of a fixed header (two bits at offset 1) set to 2 in a
    byte that has the retain and type bits set. *)
Lemma bit_field_roundtrip_witness :
  0 <= lwmqtt_write_bits 49 2 1 2 < 256 /\
  lwmqtt_read_bits (lwmqtt_write_bits 49 2 1 2) 1 2 = 2 mod 2 ^ 2 /\
  (forall pos' num',
     0 <= pos' -> 0 <= num' -> pos' + num' <= 8 ->
     pos' + num' <= 1 \/ 1 + 2 <= pos' ->
     lwmqtt_read_bits (lwmqtt_write_bits 49 2 1 2) pos' num' =
     lwmqtt_read_bits 49 pos' num').
Proof. apply (bit_field_roundtrip 49 2 1 2); lia. Defined.

(** ** Fixed-width integers and strings *)

Lemma u8_idem x : u8 (u8 x) = u8 x.
Proof. unfold u8. apply Z.mod_mod. lia. Qed.

Lemma load_store_other m a v b : b <> a -> load (store m a v) b = load m b.
Proof. intros Hne. unfold load, store. now destruct (Z.eqb_spec b a). Qed.

(** Big-endian: the high byte shifted over the low byte is the number. *)
Lemma be16_value n :
  0 <= n < 65536 ->
  u16 (Z.lor (Z.shiftl (u8 (Z.shiftr n 8)) 8) (u8 n)) = n.
Proof.
  intros Hn.
  assert (Hhi : u8 (Z.shiftr n 8) = Z.shiftr n 8).
  { apply u8_small. rewrite Z.shiftr_div_pow2 by lia. change (2 ^ 8) with 256.
    Z.to_euclidean_division_equations. lia. }
  rewrite Hhi. unfold u8. rewrite <- Z.land_ones by lia.
  rewrite Z.lor_comm, <- Z.ldiff_ones_r by lia.
  rewrite Z.lor_comm, Z.lor_ldiff_and. unfold u16. apply Z.mod_small. lia.
Qed.

(** A 16-bit number written with room and read back. *)
Lemma num_written (m : memory) (buf buf_end num : Z) :
  0 <= num < 65536 ->
  2 <= buf_end - buf < 2 ^ 32 ->
  let w := lwmqtt_write_num m buf buf_end num in
  r_err w = LWMQTT_SUCCESS /\ r_buf w = buf + 2 /\
  load (r_out w) buf = num / 256 /\
  load (r_out w) (buf + 1) = num mod 256 /\
  lwmqtt_read_num (r_out w) buf buf_end = mk_result LWMQTT_SUCCESS (buf + 2) num.
Proof.
  intros Hn Hroom. cbv zeta. unfold lwmqtt_write_num, lwmqtt_read_num, to_size_t.
  rewrite (Z.mod_small (buf_end - buf)) by lia.
  destruct (Z.ltb_spec (buf_end - buf) 2); [lia|]. cbn [r_err r_buf r_out].
  rewrite load_store_same, load_store_other, load_store_same by lia.
  rewrite !u8_idem.
  split; [reflexivity|]. split; [reflexivity|].
  split; [|split].
  - rewrite Z.shiftr_div_pow2 by lia. change (2 ^ 8) with 256.
    apply u8_small. Z.to_euclidean_division_equations. lia.
  - reflexivity.
  - now rewrite be16_value.
Qed.

(** X3.  One byte and big-endian 16-bit numbers round-trip: with room, the
    write succeeds and advances the cursor by 1 (by 2), the high byte of a
    16-bit number is stored first, and the read from the same cursor returns
    the value and the same cursor.  Without room both the write and the read
    fail with BufferTooShort. *)
Theorem fixed_width_roundtrip :
  forall (m : memory) (buf buf_end : Z),
    0 <= buf_end - buf < 2 ^ 32 ->
    (forall byte, 0 <= byte < 256 ->
       if buf_end - buf <? 1
       then r_err (lwmqtt_write_byte m buf buf_end byte) = LWMQTT_BUFFER_TOO_SHORT /\
            r_err (lwmqtt_read_byte m buf buf_end) = LWMQTT_BUFFER_TOO_SHORT
       else let w := lwmqtt_write_byte m buf buf_end byte in
            r_err w = LWMQTT_SUCCESS /\ r_buf w = buf + 1 /\
            lwmqtt_read_byte (r_out w) buf buf_end =
            mk_result LWMQTT_SUCCESS (buf + 1) byte) /\
    (forall num, 0 <= num < 65536 ->
       if buf_end - buf <? 2
       then r_err (lwmqtt_write_num m buf buf_end num) = LWMQTT_BUFFER_TOO_SHORT /\
            r_err (lwmqtt_read_num m buf buf_end) = LWMQTT_BUFFER_TOO_SHORT
       else let w := lwmqtt_write_num m buf buf_end num in
            r_err w = LWMQTT_SUCCESS /\ r_buf w = buf + 2 /\
            load (r_out w) buf = num / 256 /\
            load (r_out w) (buf + 1) = num mod 256 /\
            lwmqtt_read_num (r_out w) buf buf_end =
            mk_result LWMQTT_SUCCESS (buf + 2) num).
Proof.
  intros m buf buf_end Hroom. split.
  - intros byte Hb. unfold lwmqtt_write_byte, lwmqtt_read_byte.
    destruct (Z.ltb_spec (buf_end - buf) 1);
      destruct (Z.leb_spec buf_end buf); try lia; cbn [r_err r_buf r_out].
    + split; reflexivity.
    + destruct (Z.leb_spec buf_end buf); [lia|].
      rewrite load_store_same, u8_small by lia. repeat split.
  - intros num Hn.
    destruct (Z.ltb_spec (buf_end - buf) 2).
    + unfold lwmqtt_write_num, lwmqtt_read_num, to_size_t.
      rewrite (Z.mod_small (buf_end - buf)) by lia.
      destruct (Z.ltb_spec (buf_end - buf) 2); [|lia]. split; reflexivity.
    + apply num_written; lia.
Qed.

(** 0x1234 written into two bytes of room. *)
Lemma fixed_width_roundtrip_witness :
  let w := lwmqtt_write_num (mem_of_list 0 []) 100 102 4660 in
  r_err w = LWMQTT_SUCCESS /\ r_buf w = 100 + 2 /\
  load (r_out w) 100 = 4660 / 256 /\
  load (r_out w) (100 + 1) = 4660 mod 256 /\
  lwmqtt_read_num (r_out w) 100 102 = mk_result LWMQTT_SUCCESS (100 + 2) 4660.
Proof.
  cbv zeta.
  refine (proj2 (fixed_width_roundtrip (mem_of_list 0 []) 100 102 _) 4660 _); lia.
Defined.

Lemma load_memcpy_inside m dst src n i :
  0 <= i < n -> load (memcpy m dst src n) (dst + i) = load m (src + i).
Proof.
  intros Hi. unfold load, memcpy.
  destruct (Z.leb_spec dst (dst + i)); [|lia].
  destruct (Z.ltb_spec (dst + i) (dst + n)); [|lia].
  cbn [andb]. do 2 f_equal. lia.
Qed.

Lemma load_memcpy_outside m dst src n a :
  a < dst \/ dst + n <= a -> load (memcpy m dst src n) a = load m a.
Proof.
  intros Ha. unfold load, memcpy.
  destruct (Z.leb_spec dst a); destruct (Z.ltb_spec a (dst + n)); cbn [andb];
    (reflexivity || lia).
Qed.

(** X4.  Length-prefixed strings round-trip.  Writing a string of [len]
    bytes (below 65536) found at [data], with room for the prefix and the
    bytes and a source that does not overlap the destination, succeeds and
    advances the cursor by [2 + len]; reading from the same cursor succeeds,
    reaches the same cursor, and returns the length with a view right after
    the prefix ([NULL] for the empty string) that holds the bytes of the
    source. *)
Theorem string_roundtrip :
  forall (m : memory) (buf buf_end : Z) (str old : lwmqtt_string_t Z),
    0 <= len str < 65536 ->
    0 <= buf_end - buf < 2 ^ 32 ->
    2 + len str <= buf_end - buf ->
    data str + len str <= buf \/ buf + 2 + len str <= data str ->
    let w := lwmqtt_write_string m buf buf_end str in
    let r := lwmqtt_read_string (r_out w) buf buf_end old in
    r_err w = LWMQTT_SUCCESS /\ r_buf w = buf + 2 + len str /\
    r_err r = LWMQTT_SUCCESS /\ r_buf r = r_buf w /\
    len (r_out r) = len str /\
    data (r_out r) = (if len str =? 0 then NULL else buf + 2) /\
    (forall i, 0 <= i < len str ->
       load (r_out w) (data (r_out r) + i) = load m (data str + i)).
Proof.
  intros m buf buf_end str old Hlen Hroom Hfit Hapart.
  pose proof (num_written m buf buf_end (len str) Hlen ltac:(lia)) as Hnum.
  cbv zeta in Hnum. destruct Hnum as (Hw1 & Hw2 & _ & _ & Hread).
  unfold lwmqtt_write_string, lwmqtt_read_string. cbv zeta.
  rewrite Hw1, Hw2. cbn [is_success negb].
  set (m1 := r_out (lwmqtt_write_num m buf buf_end (len str))) in *.
  unfold lwmqtt_write_data, lwmqtt_read_data, to_size_t.
  rewrite (Z.mod_small (buf_end - (buf + 2))) by lia.
  destruct (Z.eqb_spec (len str) 0) as [Hz|Hnz].
  - (* the empty string: the prefix alone *)
    cbn [r_err r_buf r_out]. rewrite Hread. cbn [r_err r_buf r_out is_success negb].
    rewrite Hz. cbn [Z.eqb r_err r_buf r_out is_success negb len data].
    repeat split; try lia.
  - destruct (Z.ltb_spec (buf_end - (buf + 2)) (len str)); [lia|].
    cbn [r_err r_buf r_out].
    assert (Hpre : lwmqtt_read_num (memcpy m1 (buf + 2) (data str) (len str)) buf buf_end =
                   lwmqtt_read_num m1 buf buf_end).
    { unfold lwmqtt_read_num. rewrite !load_memcpy_outside by lia. reflexivity. }
    rewrite Hpre, Hread. cbn [r_err r_buf r_out is_success negb].
    destruct (Z.eqb_spec (len str) 0); [contradiction|].
    rewrite (Z.mod_small (buf_end - (buf + 2))) by lia.
    destruct (Z.ltb_spec (buf_end - (buf + 2)) (len str)); [lia|].
    cbn [r_err r_buf r_out is_success negb len data].
    repeat split; try lia.
    intros i Hi. rewrite load_memcpy_inside by lia.
    unfold m1, lwmqtt_write_num, to_size_t. rewrite Z.mod_small by lia.
    destruct (Z.ltb_spec (buf_end - buf) 2); [lia|]. cbn [r_out].
    rewrite !load_store_other by lia. reflexivity.
Qed.

(** The topic [a/b], found at address 10, written at address 100. *)
Lemma string_roundtrip_witness :
  let m := mem_of_list 10 [97; 47; 98] in
  let w := lwmqtt_write_string m 100 105 (mk_string 3 10) in
  let r := lwmqtt_read_string (r_out w) 100 105 (mk_string 0 NULL) in
  r_err w = LWMQTT_SUCCESS /\ r_buf w = 100 + 2 + 3 /\
  r_err r = LWMQTT_SUCCESS /\ r_buf r = r_buf w /\
  len (r_out r) = 3 /\
  data (r_out r) = (if 3 =? 0 then NULL else 100 + 2) /\
  (forall i, 0 <= i < 3 -> load (r_out w) (data (r_out r) + i) = load m (10 + i)).
Proof.
  cbv zeta.
  apply (string_roundtrip (mem_of_list 10 [97; 47; 98]) 100 105 (mk_string 3 10)
           (mk_string 0 NULL)); cbn [len data]; lia.
Defined.

(** ** The cursor stays between its start and the limit *)

Lemma read_varnum_loop_agree (m m' : memory) (lo buf_end : Z) :
  agree m m' lo buf_end ->
  forall fuel buf varnum shift,
    lo <= buf ->
    read_varnum_loop fuel m buf buf_end varnum shift =
    read_varnum_loop fuel m' buf buf_end varnum shift.
Proof.
  intros Hag. induction fuel as [|fuel IH]; intros buf varnum shift Hlo; [reflexivity|].
  cbn [read_varnum_loop].
  destruct (Z.geb_spec buf buf_end); [reflexivity|].
  rewrite (Hag buf) by lia. rewrite IH by lia. reflexivity.
Qed.

Lemma read_varnum_loop_cursor (m : memory) (buf_end : Z) :
  forall fuel buf varnum shift r,
    buf <= buf_end ->
    read_varnum_loop fuel m buf buf_end varnum shift = Some r ->
    buf <= r_buf r <= buf_end.
Proof.
  induction fuel as [|fuel IH]; intros buf varnum shift r Hle Hr; [discriminate|].
  cbn [read_varnum_loop] in Hr.
  destruct (Z.geb_spec buf buf_end); [inversion Hr; subst; cbn; lia|].
  destruct (shift >=? 28); [inversion Hr; subst; cbn; lia|].
  destruct (Z.land (load m buf) 128 =? 0); [inversion Hr; subst; cbn; lia|].
  apply IH in Hr; lia.
Qed.

(** X5.  Reads stay inside the buffer.  With the cursor at or before the
    limit, every read leaves the cursor between where it was and the limit,
    a view it returns lies between the two as well, and its whole outcome is
    the same on any two memories that hold the same bytes between the cursor
    and the limit: no byte outside is read. *)
Theorem reads_stay_inside :
  forall (m m' : memory) (buf buf_end : Z),
    buf <= buf_end ->
    agree m m' buf buf_end ->
    (lwmqtt_read_byte m buf buf_end = lwmqtt_read_byte m' buf buf_end /\
     buf <= r_buf (lwmqtt_read_byte m buf buf_end) <= buf_end) /\
    (lwmqtt_read_num m buf buf_end = lwmqtt_read_num m' buf buf_end /\
     buf <= r_buf (lwmqtt_read_num m buf buf_end) <= buf_end) /\
    (forall data len, 0 <= len ->
       let r := lwmqtt_read_data buf buf_end data len in
       buf <= r_buf r <= buf_end /\
       (r_err r = LWMQTT_SUCCESS -> 0 < len ->
        buf <= r_out r /\ r_out r + len <= buf_end)) /\
    (forall str,
       let r := lwmqtt_read_string m buf buf_end str in
       r = lwmqtt_read_string m' buf buf_end str /\
       buf <= r_buf r <= buf_end /\
       (r_err r = LWMQTT_SUCCESS -> 0 < len (r_out r) ->
        buf <= data (r_out r) /\ data (r_out r) + len (r_out r) <= buf_end)) /\
    (lwmqtt_read_varnum m buf buf_end = lwmqtt_read_varnum m' buf buf_end /\
     forall r, lwmqtt_read_varnum m buf buf_end = Some r -> buf <= r_buf r <= buf_end).
Proof.
  intros m m' buf buf_end Hle Hag.
  assert (Hcast : to_size_t (buf_end - buf) <= buf_end - buf).
  { unfold to_size_t. apply Z.mod_le; lia. }
  assert (Hdata : forall b data len, buf <= b <= buf_end -> 0 <= len ->
            let r := lwmqtt_read_data b buf_end data len in
            b <= r_buf r <= buf_end /\
            (r_err r = LWMQTT_SUCCESS -> 0 < len ->
             b <= r_out r /\ r_out r + len <= buf_end)).
  { intros b data len Hb Hlen. unfold lwmqtt_read_data.
    assert (to_size_t (buf_end - b) <= buf_end - b)
      by (unfold to_size_t; apply Z.mod_le; lia).
    destruct (Z.eqb_spec len 0); [cbn; split; lia|].
    destruct (Z.ltb_spec (to_size_t (buf_end - b)) len); cbn; split; try lia;
      intros; try discriminate; lia. }
  assert (Hnum : lwmqtt_read_num m buf buf_end = lwmqtt_read_num m' buf buf_end /\
                 buf <= r_buf (lwmqtt_read_num m buf buf_end) <= buf_end /\
                 0 <= r_out (lwmqtt_read_num m buf buf_end)).
  { unfold lwmqtt_read_num.
    destruct (Z.ltb_spec (to_size_t (buf_end - buf)) 2); cbn [r_buf r_out].
    - repeat split; lia.
    - rewrite (Hag buf), (Hag (buf + 1)) by lia. repeat split; try lia.
      unfold u16. apply Z.mod_pos_bound. lia. }
  split; [|split; [|split; [|split]]].
  - unfold lwmqtt_read_byte.
    destruct (Z.leb_spec buf_end buf); cbn [r_buf]; [split; [reflexivity | lia]|].
    rewrite (Hag buf) by lia. split; [reflexivity | lia].
  - destruct Hnum as (E & Hc & _). split; assumption.
  - intros data len Hlen. apply Hdata; lia.
  - intros str. cbv zeta. unfold lwmqtt_read_string.
    destruct Hnum as (E & Hc & Hpos). rewrite <- E.
    destruct (is_success (r_err (lwmqtt_read_num m buf buf_end))) eqn:Hs; cbn [negb].
    + pose proof (Hdata (r_buf (lwmqtt_read_num m buf buf_end)) (data str)
                    (r_out (lwmqtt_read_num m buf buf_end)) Hc Hpos) as Hd.
      cbv zeta in Hd. destruct Hd as [Hd1 Hd2].
      destruct (is_success (r_err (lwmqtt_read_data _ buf_end (data str) _))) eqn:Hs2;
        cbn [negb r_err r_buf r_out len data].
      * split; [reflexivity|]. split; [lia|]. intros _ Hl.
        destruct (r_err (lwmqtt_read_data _ buf_end (data str) _)); try discriminate.
        specialize (Hd2 eq_refl Hl). lia.
      * split; [reflexivity|]. split; [lia|]. intros Hok.
        rewrite Hok in Hs2. discriminate.
    + cbn [r_err r_buf r_out]. split; [reflexivity|]. split; [lia|].
      intros Hok. rewrite Hok in Hs. discriminate.
  - unfold lwmqtt_read_varnum. split.
    + apply (read_varnum_loop_agree m m' buf buf_end Hag). lia.
    + intros r Hr. now apply read_varnum_loop_cursor in Hr.
Qed.

(** Two memories that differ only outside a three-byte buffer. *)
Lemma reads_stay_inside_witness :
  lwmqtt_read_varnum (mem_of_list 100 [129; 1; 7; 200]) 100 103 =
  lwmqtt_read_varnum (mem_of_list 100 [129; 1; 7; 99]) 100 103 /\
  forall r, lwmqtt_read_varnum (mem_of_list 100 [129; 1; 7; 200]) 100 103 = Some r ->
            100 <= r_buf r <= 103.
Proof.
  refine (proj2 (proj2 (proj2 (proj2 (reads_stay_inside
            (mem_of_list 100 [129; 1; 7; 200]) (mem_of_list 100 [129; 1; 7; 99])
            100 103 _ _))))).
  - lia.
  - intros a Ha.
    assert (Hc : a = 100 \/ a = 101 \/ a = 102) by lia.
    destruct Hc as [->|[->| ->]]; reflexivity.
Defined.

Lemma write_varnum_loop_frame (buf_end : Z) :
  forall fuel m buf varnum w,
    buf <= buf_end ->
    write_varnum_loop fuel m buf buf_end varnum = Some w ->
    buf <= r_buf w <= buf_end /\
    forall a, a < buf \/ r_buf w <= a -> r_out w a = m a.
Proof.
  induction fuel as [|fuel IH]; intros m buf varnum w Hle Hw; [discriminate|].
  cbn [write_varnum_loop] in Hw.
  destruct (Z.geb_spec buf buf_end); [inversion Hw; subst; cbn; split; [lia | reflexivity]|].
  destruct (Z.shiftr varnum 7 >? 0).
  - apply IH in Hw; [|lia]. destruct Hw as [Hc Hf]. split; [lia|].
    intros a Ha. rewrite Hf by lia. unfold store.
    destruct (Z.eqb_spec a buf); [lia | reflexivity].
  - inversion Hw; subst; cbn [r_buf r_out]. split; [lia|].
    intros a Ha. unfold store. destruct (Z.eqb_spec a buf); [lia | reflexivity].
Qed.

(** X6.  Writes stay inside the buffer.  With the cursor at or before the
    limit, every write, successful or not, leaves the cursor between where it
    was and the limit and changes no byte before the old cursor or from the
    new cursor on.  In particular a write that fails without moving the
    cursor has changed nothing, and no byte at or past the limit is ever
    written. *)
Theorem writes_stay_inside :
  forall (m : memory) (buf buf_end : Z),
    buf <= buf_end ->
    (forall byte,
       let w := lwmqtt_write_byte m buf buf_end byte in
       buf <= r_buf w <= buf_end /\
       forall a, a < buf \/ r_buf w <= a -> r_out w a = m a) /\
    (forall num,
       let w := lwmqtt_write_num m buf buf_end num in
       buf <= r_buf w <= buf_end /\
       forall a, a < buf \/ r_buf w <= a -> r_out w a = m a) /\
    (forall data len, 0 <= len ->
       let w := lwmqtt_write_data m buf buf_end data len in
       buf <= r_buf w <= buf_end /\
       forall a, a < buf \/ r_buf w <= a -> r_out w a = m a) /\
    (forall str, 0 <= len str ->
       let w := lwmqtt_write_string m buf buf_end str in
       buf <= r_buf w <= buf_end /\
       forall a, a < buf \/ r_buf w <= a -> r_out w a = m a) /\
    (forall varnum w,
       lwmqtt_write_varnum m buf buf_end varnum = Some w ->
       buf <= r_buf w <= buf_end /\
       forall a, a < buf \/ r_buf w <= a -> r_out w a = m a).
Proof.
  intros m buf buf_end Hle.
  assert (Hnum : forall num,
            let w := lwmqtt_write_num m buf buf_end num in
            buf <= r_buf w <= buf_end /\
            forall a, a < buf \/ r_buf w <= a -> r_out w a = m a).
  { intros num. cbv zeta. unfold lwmqtt_write_num.
    assert (to_size_t (buf_end - buf) <= buf_end - buf)
      by (unfold to_size_t; apply Z.mod_le; lia).
    destruct (Z.ltb_spec (to_size_t (buf_end - buf)) 2); cbn [r_buf r_out].
    - split; [lia | reflexivity].
    - split; [lia|]. intros a Ha. unfold store.
      destruct (Z.eqb_spec a (buf + 1)); [lia|].
      destruct (Z.eqb_spec a buf); [lia | reflexivity]. }
  assert (Hdata : forall m0 b data len, buf <= b <= buf_end -> 0 <= len ->
            let w := lwmqtt_write_data m0 b buf_end data len in
            b <= r_buf w <= buf_end /\
            forall a, a < b \/ r_buf w <= a -> r_out w a = m0 a).
  { intros m0 b data len Hb Hlen. cbv zeta. unfold lwmqtt_write_data.
    assert (to_size_t (buf_end - b) <= buf_end - b)
      by (unfold to_size_t; apply Z.mod_le; lia).
    destruct (Z.eqb_spec len 0); cbn [r_buf r_out]; [split; [lia | reflexivity]|].
    destruct (Z.ltb_spec (to_size_t (buf_end - b)) len); cbn [r_buf r_out].
    - split; [lia | reflexivity].
    - split; [lia|]. intros a Ha. unfold memcpy.
      destruct (Z.leb_spec b a); destruct (Z.ltb_spec a (b + len)); cbn [andb];
        (reflexivity || lia). }
  split; [|split; [exact Hnum | split; [|split]]].
  - intros byte. cbv zeta. unfold lwmqtt_write_byte.
    destruct (Z.leb_spec buf_end buf); cbn [r_buf r_out]; [split; [lia | reflexivity]|].
    split; [lia|]. intros a Ha. unfold store.
    destruct (Z.eqb_spec a buf); [lia | reflexivity].
  - intros data len Hlen. apply Hdata; lia.
  - intros str Hlen. cbv zeta. unfold lwmqtt_write_string.
    destruct (Hnum (len str)) as [Hc Hf]. cbv zeta in Hc, Hf.
    destruct (is_success (r_err (lwmqtt_write_num m buf buf_end (len str)))); cbn [negb].
    + destruct (Hdata (r_out (lwmqtt_write_num m buf buf_end (len str)))
                  (r_buf (lwmqtt_write_num m buf buf_end (len str)))
                  (data str) (len str) Hc Hlen) as [Hc2 Hf2].
      split; [lia|]. intros a Ha. rewrite Hf2 by lia. apply Hf. lia.
    + split; assumption.
  - intros varnum w Hw. unfold lwmqtt_write_varnum in Hw.
    now apply write_varnum_loop_frame in Hw.
Qed.

(** A string of three bytes written into four bytes of room: the prefix
    goes in, the data does not, and the bytes after the prefix are as they
    were. *)
Lemma writes_stay_inside_witness :
  let m := mem_of_list 100 [1; 2; 3; 4; 5] in
  let w := lwmqtt_write_string m 100 104 (mk_string 3 10) in
  100 <= r_buf w <= 104 /\
  forall a, a < 100 \/ r_buf w <= a -> r_out w a = m a.
Proof.
  cbv zeta.
  refine (proj1 (proj2 (proj2 (proj2 (writes_stay_inside
            (mem_of_list 100 [1; 2; 3; 4; 5]) 100 104 _)))) (mk_string 3 10) _).
  - lia.
  - cbn [len]. lia.
Defined.

(** ** Variable-length integers: room and decoding *)

(** X7.  [lwmqtt_write_varnum] needs all the bytes [lwmqtt_varnum_length]
    announces: for a value below 2^28 and a cursor at or before the limit
    with less room than that, it fails with BufferTooShort, having filled the
    buffer up to the limit. *)
Theorem write_varnum_short_buffer :
  forall (m : memory) (buf buf_end v : Z),
    0 <= v <= 268435455 ->
    buf <= buf_end ->
    buf_end - buf < snd (lwmqtt_varnum_length v) ->
    exists w, lwmqtt_write_varnum m buf buf_end v = Some w /\
      r_err w = LWMQTT_BUFFER_TOO_SHORT /\
      r_buf w = buf_end.
Proof.
  intros m buf buf_end v Hv Hle.
  unfold lwmqtt_write_varnum, lwmqtt_varnum_length.
  cbn [write_varnum_loop]. rewrite !Z.shiftr_div_pow2 by lia.
  change (2 ^ 7) with 128.
  repeat match goal with
  | |- context [if ?a <? ?b then _ else _] => destruct (Z.ltb_spec a b)
  end; cbn [fst snd]; intros Hroom; try lia;
  repeat match goal with
  | |- context [if ?a >? ?b then _ else _] =>
      destruct (Z.gtb_spec a b);
      try (exfalso; Z.to_euclidean_division_equations; lia)
  end;
  repeat match goal with
  | |- context [if ?a >=? ?b then _ else _] =>
      destruct (Z.geb_spec a b); try lia
  end;
  eexists; (split; [reflexivity|]); cbn [r_err r_buf]; split; (reflexivity || lia).
Qed.

(** 300 takes two bytes; one byte of room is not enough. *)
Lemma write_varnum_short_buffer_witness :
  exists w, lwmqtt_write_varnum (mem_of_list 0 []) 100 101 300 = Some w /\
    r_err w = LWMQTT_BUFFER_TOO_SHORT /\ r_buf w = 101.
Proof.
  apply (write_varnum_short_buffer (mem_of_list 0 []) 100 101 300).
  - lia.
  - lia.
  - vm_compute. reflexivity.
Defined.

Lemma lor_group acc d s :
  0 <= s -> 0 <= acc < 2 ^ s -> Z.lor acc (Z.shiftl d s) = acc + d * 2 ^ s.
Proof.
  intros Hs Hacc.
  assert (Hdisj : Z.land acc (Z.shiftl d s) = 0).
  { apply Z.bits_inj'. intros i Hi.
    rewrite Z.land_spec, Z.bits_0, Z.shiftl_spec by lia.
    destruct (Z.lt_ge_cases i s) as [Hlow|Hhigh].
    - rewrite (Z.testbit_neg_r d) by lia. apply andb_false_r.
    - rewrite <- (Z.mod_small acc (2 ^ s)) by lia.
      rewrite Z.testbit_mod_pow2 by lia.
      destruct (Z.ltb_spec i s); [lia | reflexivity]. }
  rewrite <- Z.lxor_lor, <- Z.add_nocarry_lxor by exact Hdisj.
  now rewrite Z.shiftl_mul_pow2 by lia.
Qed.

Lemma group_bound m a : 0 <= Z.land (load m a) 127 < 128.
Proof. rewrite land_127. apply Z.mod_pos_bound. lia. Qed.

Lemma read_varnum_decodes_aux (m : memory) (buf buf_end : Z) :
  match lwmqtt_read_varnum m buf buf_end with
  | None => True
  | Some r =>
      r_err r = LWMQTT_SUCCESS ->
      exists k : nat,
        (1 <= k <= 4)%nat /\
        r_buf r = buf + Z.of_nat k /\ r_buf r <= buf_end /\
        (forall i, 0 <= i < Z.of_nat k - 1 -> Z.land (load m (buf + i)) 128 <> 0) /\
        Z.land (load m (r_buf r - 1)) 128 = 0 /\
        r_out r = groups_value m buf k /\
        0 <= r_out r < 128 ^ Z.of_nat k
  end.
Proof.
  pose proof (group_bound m buf) as B0.
  pose proof (group_bound m (buf + 1)) as B1.
  pose proof (group_bound m (buf + 1 + 1)) as B2.
  pose proof (group_bound m (buf + 1 + 1 + 1)) as B3.
  unroll_read_varnum.
  repeat match goal with
  | |- context [if ?c >=? ?d then _ else _] => destruct (Z.geb_spec c d)
  | |- context [if ?c =? 0 then _ else _] => destruct (Z.eqb_spec c 0)
  end; cbn [r_err r_buf r_out]; intros Hok; try discriminate;
  rewrite ?u32_small by (apply group_shift_bound; lia);
  rewrite Z.lor_0_l, Z.shiftl_0_r;
  rewrite ?(lor_group _ _ 7) by (change (2 ^ 7) with 128; lia);
  change (2 ^ 7) with 128;
  rewrite ?(lor_group _ _ 14) by (change (2 ^ 14) with 16384; lia);
  change (2 ^ 14) with 16384;
  rewrite ?(lor_group _ _ 21) by (change (2 ^ 21) with 2097152; lia);
  change (2 ^ 21) with 2097152;
  first [ exists 1%nat; solve [varnum_groups]
        | exists 2%nat; solve [varnum_groups]
        | exists 3%nat; solve [varnum_groups]
        | exists 4%nat; solve [varnum_groups] ].
Qed.

(** X8.  What a successful [lwmqtt_read_varnum] has done: it consumed
    between one and four bytes inside the buffer, every one but the last with
    the continuation bit set and the last with it clear, and it returns the
    number their seven-bit groups stand for, least significant first.  The
    value is below 2^28, and [lwmqtt_varnum_length] of it is at most the
    number of bytes consumed (an encoding may be longer than the shortest
    one, never shorter). *)
Theorem read_varnum_decodes :
  forall (m : memory) (buf buf_end : Z) (r : result Z),
    lwmqtt_read_varnum m buf buf_end = Some r ->
    r_err r = LWMQTT_SUCCESS ->
    exists k : nat,
      (1 <= k <= 4)%nat /\
      r_buf r = buf + Z.of_nat k /\ r_buf r <= buf_end /\
      (forall i, 0 <= i < Z.of_nat k - 1 -> Z.land (load m (buf + i)) 128 <> 0) /\
      Z.land (load m (r_buf r - 1)) 128 = 0 /\
      r_out r = groups_value m buf k /\
      0 <= r_out r < 268435456 /\
      fst (lwmqtt_varnum_length (r_out r)) = LWMQTT_SUCCESS /\
      snd (lwmqtt_varnum_length (r_out r)) <= Z.of_nat k.
Proof.
  intros m buf buf_end r Hr Hok.
  pose proof (read_varnum_decodes_aux m buf buf_end) as Haux.
  rewrite Hr in Haux. destruct (Haux Hok) as (k & Hk & Hcur & Hin & Hcont & Hlast & Hval & Hb).
  exists k. repeat (split; [assumption|]).
  assert (Hc : k = 1%nat \/ k = 2%nat \/ k = 3%nat \/ k = 4%nat) by lia.
  unfold lwmqtt_varnum_length.
  destruct Hc as [-> | [-> | [-> | ->]]];
    cbn [Z.of_nat Pos.of_succ_nat Pos.succ] in Hb |- *;
    change (128 ^ 1) with 128 in Hb; change (128 ^ 2) with 16384 in Hb;
    change (128 ^ 3) with 2097152 in Hb; change (128 ^ 4) with 268435456 in Hb;
    repeat match goal with
    | |- context [if ?a <? ?b then _ else _] => destruct (Z.ltb_spec a b)
    end; cbn [fst snd]; repeat split; lia.
Qed.

(** The two bytes 0xAC 0x02 stand for 300. *)
Lemma read_varnum_decodes_witness :
  exists k : nat,
    (1 <= k <= 4)%nat /\
    102 = 100 + Z.of_nat k /\ 102 <= 103 /\
    (forall i, 0 <= i < Z.of_nat k - 1 ->
       Z.land (load (mem_of_list 100 [172; 2; 9]) (100 + i)) 128 <> 0) /\
    Z.land (load (mem_of_list 100 [172; 2; 9]) (102 - 1)) 128 = 0 /\
    300 = groups_value (mem_of_list 100 [172; 2; 9]) 100 k /\
    0 <= 300 < 268435456 /\
    fst (lwmqtt_varnum_length 300) = LWMQTT_SUCCESS /\
    snd (lwmqtt_varnum_length 300) <= Z.of_nat k.
Proof.
  apply (read_varnum_decodes (mem_of_list 100 [172; 2; 9]) 100 103
           (mk_result LWMQTT_SUCCESS 102 300)); reflexivity.
Defined.

(** * Further properties of the string utility *)

Lemma strdup_cons c s :
  strdup (String c s) = if byte_of c =? 0 then EmptyString else String c (strdup s).
Proof.
  unfold strdup. cbn [strlen]. pose proof (strlen_nonneg s) as Hs.
  destruct (byte_of c =? 0); [reflexivity|].
  replace (Z.to_nat (1 + strlen s)) with (S (Z.to_nat (strlen s))) by lia.
  reflexivity.
Qed.

Lemma strdup_length s : Z.of_nat (String.length (strdup s)) = strlen s.
Proof.
  induction s as [|c s IH]; [reflexivity|].
  rewrite strdup_cons. cbn [strlen].
  destruct (byte_of c =? 0); [reflexivity|]. cbn [String.length]. lia.
Qed.

(** X9.  [lwmqtt_string] followed by [lwmqtt_strcmp] is an equality test on
    C strings.  For a C string [a] shorter than 65536 characters (a null
    pointer counts as the empty string), the wire string made from it has the
    length of [a], has no data exactly when it is empty, and compares equal
    to a C string [b] exactly when [a] and [b] hold the same characters. *)
Theorem string_equality_test :
  forall (a b : char_ptr),
    Z.of_nat (String.length (c_str a)) < 65536 ->
    len (lwmqtt_string a) = Z.of_nat (String.length (c_str a)) /\
    (data (lwmqtt_string a) = None <-> len (lwmqtt_string a) = 0) /\
    exists r, lwmqtt_strcmp (lwmqtt_string a) b = Some r /\
      (r = 0 <-> c_str a = c_str b).
Proof.
  intros a b Hshort.
  assert (Hempty : forall s, strlen s = 0 -> strdup s = EmptyString).
  { intros s Hs. pose proof (strdup_length s) as Hl. rewrite Hs in Hl.
    destruct (strdup s); [reflexivity | cbn in Hl; lia]. }
  assert (Hnonempty : forall s, strlen s <> 0 -> strdup s <> EmptyString).
  { intros s Hs E. pose proof (strdup_length s) as Hl. rewrite E in Hl. cbn in Hl. lia. }
  assert (Hwire : lwmqtt_string a =
                  match a with
                  | Some s => if strlen s =? 0 then mk_string 0 None
                              else mk_string (strlen s) (Some s)
                  | None => mk_string 0 None
                  end).
  { destruct a as [s|]; [|reflexivity]. cbn [c_str] in Hshort.
    rewrite strdup_length in Hshort. pose proof (strlen_nonneg s).
    unfold lwmqtt_string, u16. rewrite Z.mod_small by lia. reflexivity. }
  rewrite Hwire. clear Hwire.
  assert (Hb : (b = None \/ exists t, b = Some t /\ strlen t = 0) ->
            lwmqtt_strcmp (mk_string 0 None) b = Some 0 /\ c_str b = EmptyString /\
            forall n d, n <> 0 -> lwmqtt_strcmp (mk_string n d) b = Some 1).
  { intros [-> | (t & -> & Ht)].
    - repeat split. intros n d Hn. cbn. now destruct (Z.eqb_spec n 0).
    - pose proof (proj2 (deref_zero_strlen t) Ht) as Hd.
      unfold lwmqtt_strcmp. rewrite Hd. cbn [Z.eqb len].
      split; [reflexivity|]. split; [now apply Hempty|].
      intros n d Hn. now destruct (Z.eqb_spec n 0). }
  assert (Hcases : (b = None \/ exists t, b = Some t /\ strlen t = 0) \/
                   exists t, b = Some t /\ strlen t <> 0).
  { destruct b as [t|]; [|now left; left].
    destruct (Z.eq_dec (strlen t) 0); [left; right | right]; exists t; now split. }
  destruct a as [s|]; cbn [c_str] in *.
  - pose proof (strlen_nonneg s) as Hs. rewrite strdup_length in Hshort |- *.
    destruct (Z.eqb_spec (strlen s) 0) as [Hz|Hnz]; cbn [len data].
    + split; [lia|]. split; [tauto|]. rewrite (Hempty s Hz).
      destruct Hcases as [He | (t & -> & Ht)].
      * destruct (Hb He) as (E & Hc & _). rewrite E, Hc.
        exists 0. split; [reflexivity | tauto].
      * pose proof (strlen_nonneg t).
        unfold lwmqtt_strcmp. cbn [len data c_str].
        destruct (Z.eqb_spec (deref t) 0) as [Hd|_]; [apply deref_zero_strlen in Hd; lia|].
        destruct (Z.eqb_spec 0 (strlen t)); [lia|]. cbn [negb].
        destruct (Z.ltb_spec 0 (strlen t)); [|lia].
        exists (-1). split; [reflexivity|]. split; [lia|].
        intros E. symmetry in E. now apply Hnonempty in E.
    + split; [reflexivity|]. split; [split; [discriminate | lia]|].
      destruct Hcases as [He | (t & -> & Ht)].
      * destruct (Hb He) as (_ & Hc & E). rewrite (E _ _ Hnz), Hc.
        exists 1. split; [reflexivity|]. split; [lia|].
        intros E'. now apply Hnonempty in E'.
      * unfold lwmqtt_strcmp. cbn [len data c_str].
        destruct (Z.eqb_spec (deref t) 0) as [Hd|_]; [apply deref_zero_strlen in Hd; lia|].
        destruct (Z.eqb_spec (strlen s) (strlen t)) as [Heq|Hne]; cbn [negb].
        -- destruct (memcmp_spec (Z.to_nat (strlen s)) s t) as (r & Hr & Hzero & _).
           { apply strlen_le_length. }
           { rewrite Heq. apply strlen_le_length. }
           exists r. split; [exact Hr|]. rewrite Hzero. unfold strdup.
           now rewrite <- Heq.
        -- exists (if strlen s <? strlen t then -1 else 1). split; [reflexivity|].
           split; [destruct (strlen s <? strlen t); lia|].
           intros E. apply (f_equal String.length) in E.
           apply (f_equal Z.of_nat) in E. rewrite !strdup_length in E. contradiction.
  - cbn [len data String.length Z.of_nat]. split; [reflexivity|]. split; [tauto|].
    destruct Hcases as [He | (t & -> & Ht)].
    + destruct (Hb He) as (E & Hc & _). rewrite E, Hc.
      exists 0. split; [reflexivity | tauto].
    + pose proof (strlen_nonneg t).
      unfold lwmqtt_strcmp. cbn [len data c_str].
      destruct (Z.eqb_spec (deref t) 0) as [Hd|_]; [apply deref_zero_strlen in Hd; lia|].
      destruct (Z.eqb_spec 0 (strlen t)); [lia|]. cbn [negb].
      destruct (Z.ltb_spec 0 (strlen t)); [|lia].
      exists (-1). split; [reflexivity|]. split; [lia|].
      intros E. symmetry in E. now apply Hnonempty in E.
Qed.

(** A topic against a filter with the same characters and a longer buffer
    behind the terminator. *)
Lemma string_equality_test_witness :
  exists r,
    lwmqtt_strcmp (lwmqtt_string (Some "a/b"%string))
      (Some (String "a" (String "/" (String "b" (String zero "x"%string))))) = Some r /\
    (r = 0 <-> c_str (Some "a/b"%string) =
               c_str (Some (String "a" (String "/" (String "b" (String zero "x"%string)))))).
Proof.
  refine (proj2 (proj2 (string_equality_test (Some "a/b"%string)
            (Some (String "a" (String "/" (String "b" (String zero "x"%string))))) _))).
  vm_compute. reflexivity.
Defined.

(** * Further properties of the transport read *)

(** X10.  The read does not outlast its deadline: whatever the stream
    does, once the observations contain a turn at or after the deadline the
    call has returned, with one of its three codes. *)
Theorem network_read_returns_by_deadline :
  forall (start timeout len : Z) (polls : list poll),
    (exists p, In p polls /\ ~ in_time start timeout p) ->
    exists e n,
      lwmqtt_arduino_network_read start len timeout polls = Returned e n /\
      (e = LWMQTT_NETWORK_TIMEOUT \/ e = LWMQTT_SUCCESS \/ e = LWMQTT_NETWORK_FAILED_READ).
Proof.
  intros start timeout len polls. unfold lwmqtt_arduino_network_read.
  generalize 0 at 1. revert len.
  induction polls as [|q polls IH]; intros len read (p & Hin & Hlate); [destruct Hin|].
  assert (Hdone : forall n, exists e,
            (if n =? 0 then LWMQTT_NETWORK_TIMEOUT else LWMQTT_SUCCESS) = e /\
            (e = LWMQTT_NETWORK_TIMEOUT \/ e = LWMQTT_SUCCESS \/
             e = LWMQTT_NETWORK_FAILED_READ)).
  { intros n. destruct (n =? 0); eexists; split; eauto. }
  cbn [network_read_loop].
  destruct (len >? 0).
  - destruct (Z.geb_spec (u32 (poll_millis q - start)) timeout) as [Hq|Hq].
    + destruct (Hdone read) as (e & <- & He). eauto.
    + assert (Hrest : exists p, In p polls /\ ~ in_time start timeout p).
      { destruct Hin as [<- | Hin]; [unfold in_time in Hlate; lia | eauto]. }
      destruct (poll_read q >? 0); [apply IH; exact Hrest|].
      destruct (poll_connected q =? 0); [eauto 6 | apply IH; exact Hrest].
  - destruct (Hdone read) as (e & <- & He). eauto.
Qed.

(** A stream that stays silent: the call returns at the turn past the
    deadline. *)
Lemma network_read_returns_by_deadline_witness :
  exists e n,
    lwmqtt_arduino_network_read 0 4 50 [mk_poll 10 0 1; mk_poll 30 0 1; mk_poll 60 0 1] =
    Returned e n /\
    (e = LWMQTT_NETWORK_TIMEOUT \/ e = LWMQTT_SUCCESS \/ e = LWMQTT_NETWORK_FAILED_READ).
Proof.
  apply (network_read_returns_by_deadline 0 50 4
           [mk_poll 10 0 1; mk_poll 30 0 1; mk_poll 60 0 1]).
  exists (mk_poll 60 0 1). split; [cbn; tauto|].
  unfold in_time. vm_compute. intros H. discriminate H.
Defined.

(** X11.  What the codes of the read mean, for a stream that never
    delivers more than it is asked for: the count returned is between 0 and
    the count requested; Timeout comes with no byte, Success with at least
    one, and NetworkFailedRead with the bytes read before the stream was
    found disconnected. *)
Theorem network_read_result_sound :
  forall (start timeout len : Z) (polls : list poll) (e : lwmqtt_err_t) (n : Z),
    0 < len < 2 ^ 32 ->
    honest len polls ->
    lwmqtt_arduino_network_read start len timeout polls = Returned e n ->
    0 <= n <= len /\
    ((e = LWMQTT_NETWORK_TIMEOUT /\ n = 0) \/
     (e = LWMQTT_SUCCESS /\ 1 <= n) \/
     (e = LWMQTT_NETWORK_FAILED_READ /\ n < len)).
Proof.
  intros start timeout len polls e n Hlen Hh Hrun.
  unfold lwmqtt_arduino_network_read in Hrun.
  destruct (network_read_returned_inv start timeout polls len 0 e n
              ltac:(lia) ltac:(lia) ltac:(lia) Hh Hrun)
    as (pre & p & rest & _ & _ & Hless & Hcase).
  pose proof (delivered_nonneg pre) as Hpre.
  destruct Hcase as [(_ & Hn & He) | [(_ & _ & _ & Hn & He) | (_ & _ & Hn & He)]];
    subst e; (split; [lia|]).
  - destruct (Z.eqb_spec n 0); [left | right; left]; split; (reflexivity || lia).
  - right; right. split; [reflexivity | lia].
  - right; left. split; [reflexivity | lia].
Qed.

(** Three of ten bytes arrive, then the stream is found disconnected. *)
Lemma network_read_result_sound_witness :
  0 <= 3 <= 10 /\
  ((LWMQTT_NETWORK_FAILED_READ = LWMQTT_NETWORK_TIMEOUT /\ 3 = 0) \/
   (LWMQTT_NETWORK_FAILED_READ = LWMQTT_SUCCESS /\ 1 <= 3) \/
   (LWMQTT_NETWORK_FAILED_READ = LWMQTT_NETWORK_FAILED_READ /\ 3 < 10)).
Proof.
  apply (network_read_result_sound 0 50 10 [mk_poll 5 3 1; mk_poll 9 0 0]
           LWMQTT_NETWORK_FAILED_READ 3).
  - lia.
  - cbn. lia.
  - reflexivity.
Defined.

(** * Further properties of the message dispatch *)

Lemma arduino_String_ext m m' p n :
  (forall i, 0 <= i < n -> m' (p + i) = m (p + i)) ->
  arduino_String m' p n = arduino_String m p n.
Proof.
  intros Hsame. unfold arduino_String. destruct (p =? NULL); [reflexivity|].
  apply map_ext_in. intros i Hi. apply in_seq in Hi. unfold load.
  rewrite Hsame by lia. reflexivity.
Qed.

(** X12.  A null-terminating dispatch delivers the message as decoded,
    provided neither terminator falls inside the other view: the bytes of
    both views are in memory as before, a simple callback receives the
    strings made of exactly those bytes, and an advanced callback receives
    the two pointers and the payload length.  (When the payload starts where
    the topic ends, the side condition fails.) *)
Theorem handler_delivers_message :
  forall (m : memory) (cb : MQTTClientCallback)
         (topic : lwmqtt_string_t Z) (message : lwmqtt_message_t Z),
    null_terminating (cb_type cb) ->
    0 <= len topic -> 0 <= msg_payload_len message ->
    ~ (msg_payload message <= data topic + len topic <
       msg_payload message + msg_payload_len message) ->
    ~ (data topic <= msg_payload message + msg_payload_len message <
       data topic + len topic) ->
    let after := fst (MQTTClientHandler m cb topic message) in
    (forall i, 0 <= i < len topic -> after (data topic + i) = m (data topic + i)) /\
    (forall i, 0 <= i < msg_payload_len message ->
       after (msg_payload message + i) = m (msg_payload message + i)) /\
    snd (MQTTClientHandler m cb topic message) =
    Some (cb_type cb,
          match cb_type cb with
          | MQTT_CB_ADVANCED | MQTT_CB_FUNC_ADVANCED =>
              args_advanced (cb_client cb) (data topic) (msg_payload message)
                (to_int32 (msg_payload_len message))
          | _ =>
              args_simple (arduino_String m (data topic) (len topic))
                (if negb (msg_payload message =? NULL)
                 then arduino_String m (msg_payload message) (msg_payload_len message)
                 else [])
          end).
Proof.
  intros m cb topic message Hkind Htl Hpl Hsep1 Hsep2 after.
  assert (Hsame : forall a,
            a <> data topic + len topic ->
            a <> msg_payload message + msg_payload_len message ->
            after a = m a).
  { intros a H1 H2.
    destruct (Z.eq_dec (after a) (m a)) as [E|N]; [exact E | exfalso].
    destruct (handler_writes m cb topic message a N) as [_ [[Ha _] | (Ha & _)]];
      contradiction. }
  assert (Htopic : forall i, 0 <= i < len topic ->
            after (data topic + i) = m (data topic + i)) by (intros; apply Hsame; lia).
  assert (Hpay : forall i, 0 <= i < msg_payload_len message ->
            after (msg_payload message + i) = m (msg_payload message + i))
    by (intros; apply Hsame; lia).
  split; [exact Htopic|]. split; [exact Hpay|].
  pose proof (arduino_String_ext m after (data topic) (len topic) Htopic) as Et.
  pose proof (arduino_String_ext m after (msg_payload message)
                (msg_payload_len message) Hpay) as Ep.
  unfold after in Et, Ep. revert Et Ep. unfold MQTTClientHandler.
  destruct Hkind as [-> | [-> | [-> | ->]]]; cbn [fst snd]; intros Et Ep;
    try reflexivity; now rewrite Et, Ep.
Qed.

(** A topic and a payload with the two bytes of a packet identifier between
    them. *)
Lemma handler_delivers_message_witness :
  let c := mk_client 1000 2000 true None None 16 16 1000 0 1883 10 0 true false true 0
             LWMQTT_SUCCESS in
  let cb := mk_callback (Some c) MQTT_CB_SIMPLE in
  let m := mem_of_list 1000 [97; 47; 98; 0; 7; 104; 105] in
  snd (MQTTClientHandler m cb (mk_string 3 1000) (mk_message 1 false 1005 2)) =
  Some (MQTT_CB_SIMPLE,
        args_simple (arduino_String m 1000 3)
          (if negb (1005 =? NULL) then arduino_String m 1005 2 else [])).
Proof.
  cbv zeta.
  refine (proj2 (proj2 (handler_delivers_message
            (mem_of_list 1000 [97; 47; 98; 0; 7; 104; 105])
            (mk_callback
               (Some (mk_client 1000 2000 true None None 16 16 1000 0 1883 10 0 true false
                        true 0 LWMQTT_SUCCESS)) MQTT_CB_SIMPLE)
            (mk_string 3 1000) (mk_message 1 false 1005 2) _ _ _ _ _))).
  - left; reflexivity.
  - cbn; lia.
  - cbn; lia.
  - cbn; lia.
  - cbn; lia.
Defined.

(** * Further properties of the session driver *)

(** X13.  A delegated failure closes the session.  Whenever [publish],
    [subscribe], [unsubscribe] or [loop] gets past the guard: if it returns
    true the session is still marked connected and the last error is success;
    if it returns false the last error is the failure, the connected flag is
    clear and the last thing done to the world is stopping the transport.
    [disconnect] past the guard always clears the flag and stops the
    transport, and returns whether the last error is success.  None of them
    changes the will. *)
Theorem failure_closes_session :
  forall (W : Type) (T : Client W) (E : Engine W) (c : MQTTClient) (w : W),
    fst (connected c w) = true ->
    (forall topic payload length retained qos,
       closes_on_failure c (publish topic payload length retained qos c w)) /\
    (forall topic qos, closes_on_failure c (subscribe topic qos c w)) /\
    (forall topic, closes_on_failure c (unsubscribe topic c w)) /\
    closes_on_failure c (loop c w) /\
    will (snd (fst (disconnect c w))) = will c /\
    _connected (snd (fst (disconnect c w))) = false /\
    (exists w1, snd (disconnect c w) = client_stop w1) /\
    (fst (fst (disconnect c w)) = true <->
     _lastError (snd (fst (disconnect c w))) = LWMQTT_SUCCESS).
Proof.
  intros W T E c w Hup.
  assert (Hflag : _connected c = true).
  { unfold connected in Hup. destruct (_connected c); [reflexivity | discriminate]. }
  unfold closes_on_failure, publish, subscribe, unsubscribe, loop, disconnect.
  destruct (connected c w) as [up w0]. cbn [fst] in Hup. subst up. cbn [negb].
  split; [|split; [|split; [|split]]].
  - intros topic payload length retained qos.
    destruct (lwmqtt_publish _ _ _ _ w0) as [[err dup] w1].
    destruct (nextDupPacketID c >? 0), err; cbn; repeat split; eauto; congruence.
  - intros topic qos.
    destruct (lwmqtt_subscribe_one _ _ _ w0) as [err w1].
    destruct err; cbn; repeat split; eauto; congruence.
  - intros topic.
    destruct (lwmqtt_unsubscribe_one _ _ w0) as [err w1].
    destruct err; cbn; repeat split; eauto; congruence.
  - destruct (client_available w0) as [available w1].
    destruct (available >? 0).
    + destruct (lwmqtt_yield available (timeout c) w1) as [err w2].
      destruct err; cbn [is_success negb];
        try (cbn; repeat split; eauto; congruence).
      destruct (lwmqtt_keep_alive _ w2) as [err w3].
      destruct err; cbn; repeat split; eauto; congruence.
    + cbn [negb].
      destruct (lwmqtt_keep_alive _ w1) as [err w3].
      destruct err; cbn; repeat split; eauto; congruence.
  - destruct (lwmqtt_disconnect _ w0) as [err w1]. cbn.
    split; [reflexivity|]. split; [reflexivity|]. split; [eauto|].
    destruct err; cbn; split; congruence.
Qed.

(** A publish on a live connection whose engine call times out. *)
Lemma failure_closes_session_witness :
  let c := mk_client 1000 2000 true None None 8 8 1000 0 1883 10 0 true false true 0
             LWMQTT_SUCCESS in
  @closes_on_failure logged logged_client c
    (@publish logged logged_client failing_engine (Some "a/b"%string) (Some "hi"%string)
       2 false 0 c (mk_logged 1 [])).
Proof.
  cbv zeta.
  refine (proj1 (failure_closes_session logged logged_client failing_engine
            (mk_client 1000 2000 true None None 8 8 1000 0 1883 10 0 true false true 0
               LWMQTT_SUCCESS) (mk_logged 1 []) _) _ _ _ _ _).
  reflexivity.
Defined.

Lemma strlen_strdup s : strlen (strdup s) = strlen s.
Proof.
  induction s as [|c s IH]; [reflexivity|].
  rewrite strdup_cons. cbn [strlen].
  destruct (byte_of c =? 0) eqn:Hc; [reflexivity|].
  cbn [strlen]. rewrite Hc, IH. reflexivity.
Qed.

Lemma lwmqtt_string_copy t :
  0 < strlen t < 65536 ->
  lwmqtt_string (Some (strdup t)) = mk_string (strlen t) (Some (strdup t)).
Proof.
  intros Ht. unfold lwmqtt_string. rewrite strlen_strdup.
  unfold u16. rewrite Z.mod_small by lia.
  destruct (Z.eqb_spec (strlen t) 0); [lia | reflexivity].
Qed.

Lemma heap_block_eqb_refl b : heap_block_eqb b b = true.
Proof. destruct b as [|[s|]]; cbn; [reflexivity | apply String.eqb_refl | reflexivity]. Qed.

Lemma heap_run_app h ev1 ev2 :
  heap_run h (ev1 ++ ev2) =
  match heap_run h ev1 with
  | Some h' => heap_run h' ev2
  | None => None
  end.
Proof.
  revert h. induction ev1 as [|e ev1 IH]; intros h; [reflexivity|].
  cbn [app heap_run]. destruct (heap_step h e); [apply IH | reflexivity].
Qed.

(** [clearWill] releases exactly what the session owns. *)
Lemma clearWill_releases (c : MQTTClient) (h : list heap_block) :
  will_wellformed c ->
  heap_run (owned c ++ h) (snd (clearWill c)) = Some h /\
  will (fst (clearWill c)) = None /\
  owned (fst (clearWill c)) = [].
Proof.
  unfold will_wellformed, owned, clearWill.
  destruct (will c) as [w|] eqn:Hw;
    [|intros _; cbn [fst snd]; rewrite Hw; repeat split].
  intros [Hp Ht]. cbn [fst snd set_will will].
  split; [|split; reflexivity].
  destruct (Z.gtb_spec (len (will_payload w)) 0) as [Hlp|_];
    destruct (Z.gtb_spec (len (will_topic w)) 0) as [Hlt|_];
    try (destruct (data (will_payload w)) as [p|] eqn:Ep; [|now specialize (Hp Hlp)]);
    try (destruct (data (will_topic w)) as [t|] eqn:Et; [|now specialize (Ht Hlt)]);
    repeat (progress (cbn [app heap_run heap_step release heap_block_eqb];
                      rewrite ?String.eqb_refl));
    reflexivity.
Qed.

(** X14.  The will owns its memory.  Started on a heap that holds what the
    session owns through its will (and anything else), [setWill] with a
    topic and a payload shorter than 65536 characters, whichever of its
    allocations fail, only releases blocks that are live, and ends on the
    heap that holds what the session owns afterwards: the old will is
    released before the new one is allocated, a failed allocation leaves
    nothing behind, nothing is released twice.  A [clearWill] after it
    releases the rest. *)
Theorem will_heap_ownership :
  forall (a : allocator) (topic payload : char_ptr) (retained : bool) (qos : Z)
         (c : MQTTClient) (h : list heap_block),
    will_wellformed c ->
    Z.of_nat (String.length (c_str topic)) < 65536 ->
    Z.of_nat (String.length (c_str payload)) < 65536 ->
    let c' := fst (setWill a topic payload retained qos c) in
    heap_run (owned c ++ h) (snd (setWill a topic payload retained qos c)) =
    Some (owned c' ++ h) /\
    will_wellformed c' /\
    heap_run (owned c' ++ h) (snd (clearWill c')) = Some h.
Proof.
  intros a topic payload retained qos c h Hwf Ht Hp c'.
  assert (Hgoal : heap_run (owned c ++ h) (snd (setWill a topic payload retained qos c)) =
                  Some (owned c' ++ h) /\ will_wellformed c').
  { unfold c'. clear c'. unfold setWill.
    destruct topic as [t|]; [|split; [reflexivity | exact Hwf]].
    destruct (Z.eqb_spec (deref t) 0) as [Hd|Hd]; [split; [reflexivity | exact Hwf]|].
    assert (Hlen : 0 < strlen t < 65536).
    { cbn [c_str] in Ht. rewrite strdup_length in Ht. pose proof (strlen_nonneg t).
      assert (strlen t <> 0) by (intros E; apply deref_zero_strlen in E; contradiction).
      lia. }
    destruct (clearWill_releases c h Hwf) as (Hrel & Hnone & _).
    destruct (clearWill c) as [c1 ev1]. cbn [fst snd] in Hrel, Hnone.
    destruct (malloc_will_ok a); cbn [negb fst snd].
    2:{ split; [|exact I]. cbn [owned set_will will app]. exact Hrel. }
    destruct (strdup_topic_ok a); cbn [negb].
    2:{ cbn [clearWill set_will will will_payload will_topic len Z.gtb Z.compare app
             fst snd owned will_wellformed].
        split; [|exact I]. rewrite !heap_run_app, Hrel.
        cbn [heap_run heap_step release heap_block_eqb]. reflexivity. }
    rewrite lwmqtt_string_copy by exact Hlen.
    set (wanted := match payload with
                   | Some p => if deref p =? 0 then None else Some p
                   | None => None
                   end).
    assert (Hpos : (strlen t >? 0) = true) by (apply Z.gtb_lt; lia).
    destruct wanted as [p|] eqn:Hwanted.
    - assert (Hplen : 0 < strlen p < 65536).
      { subst wanted. destruct payload as [q|]; [|discriminate].
        destruct (Z.eqb_spec (deref q) 0) as [|Hq]; [discriminate|].
        inversion Hwanted; subst q. cbn [c_str] in Hp. rewrite strdup_length in Hp.
        pose proof (strlen_nonneg p).
        assert (strlen p <> 0) by (intros E; apply deref_zero_strlen in E; contradiction).
        lia. }
      assert (Hppos : (strlen p >? 0) = true) by (apply Z.gtb_lt; lia).
      destruct (strdup_payload_ok a); cbn [negb].
      + rewrite lwmqtt_string_copy by exact Hplen.
        cbn [fst snd owned set_will will will_payload will_topic len data will_wellformed].
        rewrite Hpos, Hppos. split; [|split; discriminate].
        rewrite !heap_run_app, Hrel. reflexivity.
      + cbn [clearWill set_will will will_payload will_topic len data Z.gtb Z.compare app
             fst snd owned will_wellformed].
        rewrite Hpos. split; [|exact I].
        rewrite !heap_run_app, Hrel.
        cbn [app heap_run heap_step release heap_block_eqb].
        rewrite String.eqb_refl. reflexivity.
    - cbn [fst snd owned set_will will will_payload will_topic len data Z.gtb Z.compare
           will_wellformed app].
      rewrite Hpos. split; [|split; [lia | discriminate]].
      rewrite !heap_run_app, Hrel. reflexivity. }
  destruct Hgoal as [Hrun Hwf']. split; [exact Hrun|]. split; [exact Hwf'|].
  apply clearWill_releases. exact Hwf'.
Qed.

(** A second [setWill] on a session that has a will, with the copy of the
    payload failing. *)
Lemma will_heap_ownership_witness :
  let w := mk_will (mk_string 6 (Some "status"%string)) (mk_string 4 (Some "gone"%string))
             true 1 in
  let c := mk_client 1000 2000 true None (Some w) 8 8 1000 0 1883 10 0 true false false 0
             LWMQTT_SUCCESS in
  let c' := fst (setWill (mk_allocator true true false) (Some "t"%string) (Some "bye"%string)
                   false 0 c) in
  heap_run (owned c ++ [])
    (snd (setWill (mk_allocator true true false) (Some "t"%string) (Some "bye"%string)
            false 0 c)) = Some (owned c' ++ []) /\
  will_wellformed c' /\
  heap_run (owned c' ++ []) (snd (clearWill c')) = Some [].
Proof.
  cbv zeta.
  apply (will_heap_ownership (mk_allocator true true false) (Some "t"%string)
           (Some "bye"%string) false 0).
  - cbn. split; discriminate.
  - vm_compute. reflexivity.
  - vm_compute. reflexivity.
Defined.

(** X15.  A session whose buffers could not be allocated is inert.  When
    either [malloc] of the constructor fails, both buffers are null with size
    0; [begin] then registers nothing with the engine, sets no transport and
    records BufferTooShort; after that [publish], [subscribe],
    [unsubscribe], [loop] and [disconnect] return false leaving the session
    and the world untouched, and a dispatch through any callback installed
    on the session writes no terminator. *)
Theorem failed_allocation_is_inert :
  forall (W : Type) (T : Client W) (E : Engine W) (S : Setup W)
         (rsize wsize read_block write_block : Z) (w : W),
    read_block = NULL \/ write_block = NULL ->
    let c := fst (begin (fst (MQTTClient_new rsize wsize read_block write_block)) w) in
    snd (begin (fst (MQTTClient_new rsize wsize read_block write_block)) w) = w /\
    readBuf c = NULL /\ writeBuf c = NULL /\ readBufSize c = 0 /\ writeBufSize c = 0 /\
    netClient c = false /\ _lastError c = LWMQTT_BUFFER_TOO_SHORT /\
    (forall w' : W,
       (forall topic payload length retained qos,
          publish topic payload length retained qos c w' = (false, c, w')) /\
       (forall topic qos, subscribe topic qos c w' = (false, c, w')) /\
       (forall topic, unsubscribe topic c w' = (false, c, w')) /\
       loop c w' = (false, c, w') /\
       disconnect c w' = (false, c, w')) /\
    (forall kind m topic message,
       fst (MQTTClientHandler m (onMessage_as kind c) topic message) = m).
Proof.
  intros W T E S rsize wsize read_block write_block w Hfail c.
  assert (Hnew : (read_block =? NULL) || (write_block =? NULL) = true).
  { destruct Hfail as [-> | ->]; [reflexivity | apply orb_true_r]. }
  assert (Hc : c = mk_client NULL NULL false None None 0 0 1000 0 0 10 0 true false false 0
                     LWMQTT_BUFFER_TOO_SHORT /\
               snd (begin (fst (MQTTClient_new rsize wsize read_block write_block)) w) = w).
  { unfold c, MQTTClient_new, begin. rewrite Hnew. cbn. split; reflexivity. }
  destruct Hc as [-> Hw]. split; [exact Hw|].
  repeat (split; [reflexivity|]). split.
  - intros w'. repeat split.
  - intros kind m topic message.
    unfold MQTTClientHandler, onMessage_as, can_terminate, readBufferPtr.
    cbn [cb_type cb_client readBuf Z.eqb NULL].
    destruct kind; cbn [fst]; rewrite ?andb_false_r; reflexivity.
Qed.

(** The read buffer could not be allocated; [loop] is then called on a
    transport that would answer. *)
Lemma failed_allocation_is_inert_witness :
  let c := fst (@begin logged logged_setup (fst (MQTTClient_new 64 64 NULL 5000))
                  (mk_logged 1 [])) in
  @loop logged logged_client logged_engine c (mk_logged 1 []) = (false, c, mk_logged 1 []).
Proof.
  cbv zeta.
  refine (proj1 (proj2 (proj2 (proj2 (proj1 (proj2 (proj2 (proj2 (proj2 (proj2 (proj2 (proj2
            (failed_allocation_is_inert logged logged_client logged_engine logged_setup
               64 64 NULL 5000 (mk_logged 1 []) _)))))))) (mk_logged 1 [])))))).
  left; reflexivity.
Defined.

Lemma connected_true_inv {W : Type} `{Client W} (c : MQTTClient) (w : W) :
  fst (connected c w) = true -> _connected c = true /\ netClient c = true.
Proof.
  unfold connected. destruct (_connected c); [|discriminate].
  destruct (netClient c); [|discriminate]. now split.
Qed.

Lemma connect_broker_outcome {W : Type} `{Client W} `{Connector W}
  defaults clientID username password (c : MQTTClient) (w : W) ok c' w' :
  connect_broker defaults clientID username password c w = Some (ok, c', w') ->
  will c' = will c /\ netClient c' = netClient c /\
  (ok = true <-> _lastError c' = LWMQTT_SUCCESS) /\
  (ok = true -> _connected c' = true) /\
  (ok = false -> _connected c' = false /\ exists w1, w' = client_stop w1).
Proof.
  unfold connect_broker.
  destruct (lwmqtt_connect _ (will c) (timeout c) w) as [[[err code] present] w1].
  destruct err; cbn [is_success negb set_returnCode set_lastError netClient];
    try (destruct (netClient c) eqn:Hn; [|discriminate]);
    cbn; intros E; inversion E; subst; cbn;
    repeat split; intros; try discriminate; try congruence; eauto.
Qed.

(** X16.  The outcome of [connect].  Whenever it returns: it returns true
    exactly when the last error it leaves is success, and then the session is
    marked connected; after a false return the connected flag is clear,
    except when the transport could not be opened for a session whose flag
    was set although [connected()] already answered false, in which case the
    flag is left as it was and the last error is NetworkFailedConnect.  The
    will is never changed. *)
Theorem connect_outcome :
  forall (W : Type) (T : Client W) (K : Connector W)
         (defaults : lwmqtt_connect_options_t) (address : Z)
         (clientID username password : char_ptr) (skip : bool)
         (c : MQTTClient) (w : W) (ok : bool) (c' : MQTTClient) (w' : W),
    connect defaults address clientID username password skip c w = Some (ok, c', w') ->
    will c' = will c /\
    (ok = true <-> _lastError c' = LWMQTT_SUCCESS) /\
    (ok = true -> _connected c' = true) /\
    (ok = false ->
     _connected c' = false \/
     (skip = false /\ fst (connected c w) = false /\
      _connected c' = _connected c /\
      _lastError c' = LWMQTT_NETWORK_FAILED_CONNECT)).
Proof.
  intros W T K defaults address clientID username password skip c w ok c' w'.
  unfold connect. destruct skip; cbn [negb].
  - intros Hb. apply connect_broker_outcome in Hb.
    destruct Hb as (Hw & _ & Hok & Hup & Hdown).
    repeat split; try tauto; intros Hf; left; now apply Hdown.
  - destruct (connected c w) as [up w1] eqn:Hc.
    assert (Hup : up = true -> netClient c = true).
    { intros ->. apply (connected_true_inv c w). now rewrite Hc. }
    destruct up; cbn [close fst].
    + cbn [netClient set_connected]. rewrite (Hup eq_refl).
      destruct (match hostname (set_connected c false) with
                | Some name => client_connect_hostname name _ _
                | None => client_connect_address address _ _
                end) as [ret w2].
      destruct (ret <=? 0).
      * intros E; inversion E; subst; cbn.
        repeat split; try congruence; intros _; now left.
      * intros Hb. apply connect_broker_outcome in Hb.
        destruct Hb as (Hw & _ & Hok & Hup' & Hdown).
        cbn [will set_connected] in Hw.
        repeat split; try tauto; intros Hf; left; now apply Hdown.
    + destruct (netClient c); [|discriminate].
      destruct (match hostname c with
                | Some name => client_connect_hostname name _ _
                | None => client_connect_address address _ _
                end) as [ret w2].
      destruct (ret <=? 0).
      * intros E; inversion E; subst; cbn.
        repeat split; try congruence; intros _; right; repeat split.
      * intros Hb. apply connect_broker_outcome in Hb.
        destruct Hb as (Hw & _ & Hok & Hup' & Hdown).
        repeat split; try tauto; intros Hf; left; now apply Hdown.
Qed.

(** A session whose flag is still set after the transport dropped, and a
    transport that cannot be reopened. *)
Lemma connect_outcome_witness :
  let c := mk_client 1000 2000 true (Some "broker"%string) None 8 8 1000 0 1883 10 0 true
             false true 0 LWMQTT_SUCCESS in
  let c' := mk_client 1000 2000 true (Some "broker"%string) None 8 8 1000 0 1883 10 0 true
              false true 0 LWMQTT_NETWORK_FAILED_CONNECT in
  will c' = will c /\
  (false = true <-> _lastError c' = LWMQTT_SUCCESS) /\
  (false = true -> _connected c' = true) /\
  (false = false ->
   _connected c' = false \/
   (false = false /\ fst (@connected logged logged_client c (mk_logged 0 [])) = false /\
    _connected c' = _connected c /\
    _lastError c' = LWMQTT_NETWORK_FAILED_CONNECT)).
Proof.
  cbv zeta.
  apply (connect_outcome logged logged_client logged_connector
           (mk_connect_options (mk_string 0 None) 0 true (mk_string 0 None) (mk_string 0 None))
           0 (Some "t1"%string) None None false
           (mk_client 1000 2000 true (Some "broker"%string) None 8 8 1000 0 1883 10 0 true
              false true 0 LWMQTT_SUCCESS)
           (mk_logged 0 []) false
           (mk_client 1000 2000 true (Some "broker"%string) None 8 8 1000 0 1883 10 0 true
              false true 0 LWMQTT_NETWORK_FAILED_CONNECT)
           (mk_logged 0 [called_connected])).
  reflexivity.
Defined.
